(** * GreenGrow stock manager: the inventory and sales ledger

    A shallow embedding of [inventory_manager.py] (with the tables of
    [models.py]) and the properties of its ledger operations: stock
    addition, inter-location transfer, FIFO sale consumption, and the two
    filtered reads.  The catalogue operations (tree types, locations) and
    [print_table] of [utils.py] are embedded as well.

    Modelling conventions.
    - A table is the list of its rows in rowid order, which is the order a
      query without [ORDER BY] scans it in (so [.first()] is the first
      matching row of the list); a new row gets the next rowid, one more
      than the largest in the table.
    - An ORM object is a reference to its row: the session's identity map
      hands out one object per primary key, so an attribute write is a
      write to the row with that id, and an attribute read sees earlier
      writes made through any alias of the same row.
    - Python integers are [Z].  The [Float] columns are kept abstract: the
      type [price] and the product [price_times] (Python's [float * int])
      are parameters of the development.
    - [datetime.datetime.now()] is an input [now] of the operations that
      read the clock.  A timestamp is a count of microseconds, a
      [datetime.date] is a day ordinal ([date.toordinal()]); midnight of day
      [d] is the timestamp [d * usec_per_day].
    - [ORDER BY] is a stable sort of the rows in rowid order.  SQL leaves
      the order of equal keys open: the oldest-first property of a sale is
      stated for the query order and also, free of that choice, for lots
      with different creation times.
    - The store enforces the [unique] name columns: an insert that repeats
      a name fails with [IntegrityError] and commits nothing.  Its other
      limits (64-bit integer columns, disk failures) are outside the
      model, and foreign keys are not checked by it. *)

From Stdlib Require Import ZArith List Bool Lia String Sorted Permutation.
From Stdlib Require Import Ascii.
Import ListNotations.
Open Scope Z_scope.

(** ** Stable sorting on an integer key (ORDER BY col ASC / DESC) *)

Section OrderBy.
Context {A : Type}.
Variable key : A -> Z.

Fixpoint insert_asc (x : A) (l : list A) : list A :=
  match l with
  | [] => [x]
  | y :: l' => if key x <=? key y then x :: l else y :: insert_asc x l'
  end.

Definition order_by_asc (l : list A) : list A :=
  fold_right insert_asc [] l.

(** The order a list sorted ascending by [key] is in. *)
Definition key_le (a b : A) : Prop := key a <= key b.
End OrderBy.

Definition order_by_desc {A : Type} (key : A -> Z) (l : list A) : list A :=
  order_by_asc (fun a => - key a) l.

(** Python's [sum] over integers. *)
Definition sum (l : list Z) : Z := fold_right Z.add 0 l.

(** ** Dates and timestamps *)

Definition datetime := Z.
Definition date := Z.

Definition usec_per_day : Z := 86400000000.

(** [date.min.toordinal()] and [date.max.toordinal()] (9999-12-31). *)
Definition date_min : date := 1.
Definition date_max : date := 3652059.

Definition valid_date (d : date) : Prop := date_min <= d <= date_max.

(** Result of an expression that may raise [OverflowError]. *)
Inductive py_result (A : Type) : Type :=
| Returned (a : A)
| OverflowError.
Arguments Returned {A} a.
Arguments OverflowError {A}.

(** Result of an insert that the store refuses when it breaks a [unique]
    column ([sqlalchemy.exc.IntegrityError] out of [db.commit()]). *)
Inductive store_result (A : Type) : Type :=
| Committed (a : A)
| IntegrityError.
Arguments Committed {A} a.
Arguments IntegrityError {A}.

(** [d + datetime.timedelta(days=n)]: raises outside [date.min, date.max]. *)
Definition date_plus_days (d : date) (n : Z) : py_result date :=
  if (date_min <=? d + n) && (d + n <=? date_max)
  then Returned (d + n) else OverflowError.

(** A [date] bound against a [DateTime] column compares as its midnight. *)
Definition midnight (d : date) : datetime := d * usec_per_day.

(** [datetime.date()]: the calendar day of a timestamp. *)
Definition date_of (ts : datetime) : date := ts / usec_per_day.

(** ** Table printing ([print_table] of [utils.py])

    A cell stands for its [str(cell)]; a string is the list of its
    characters, and [len] counts them.  The output is the sequence of
    values handed to [click.echo]: plain text, or text that [click.style]
    colours cyan. *)

Inductive echoed : Type :=
| Plain (text : string)
| Cyan (bold : bool) (text : string).

Definition echoed_text (e : echoed) : string :=
  match e with
  | Plain text => text
  | Cyan _ text => text
  end.

(** The run of [print_table]: it returns after echoing [out], or an index
    into [column_widths] is out of range and [IndexError] is raised after
    echoing [out]. *)
Inductive table_result : Type :=
| Printed (out : list echoed)
| IndexError (out : list echoed).

(** [c * n] for a one-character string [c]. *)
Fixpoint repeat_string (c : ascii) (n : nat) : string :=
  match n with
  | O => EmptyString
  | S n' => String c (repeat_string c n')
  end.

(** The format spec [:<w]: left-justified in a field of [w] characters,
    padded with spaces, never cut. *)
Definition ljust (s : string) (w : nat) : string :=
  (s ++ repeat_string " " (w - String.length s))%string.

(** [l[i] = v]; [None] is [IndexError]. *)
Fixpoint assign {A : Type} (l : list A) (i : nat) (v : A)
  : option (list A) :=
  match l, i with
  | [], _ => None
  | _ :: tl, O => Some (v :: tl)
  | x :: tl, S i' => option_map (cons x) (assign tl i' v)
  end.

(** [for i, cell in enumerate(row): column_widths[i] =
    max(column_widths[i], len(str(cell)))], from index [i] on. *)
Fixpoint widen_row (cells : list string) (i : nat) (column_widths : list nat)
  : option (list nat) :=
  match cells with
  | [] => Some column_widths
  | cell :: rest =>
      match nth_error column_widths i with
      | None => None
      | Some w =>
          match assign column_widths i (Nat.max w (String.length cell)) with
          | None => None
          | Some column_widths' => widen_row rest (S i) column_widths'
          end
      end
  end.

Fixpoint widen_rows (rows : list (list string)) (column_widths : list nat)
  : option (list nat) :=
  match rows with
  | [] => Some column_widths
  | row :: rest =>
      match widen_row row 0 column_widths with
      | None => None
      | Some column_widths' => widen_rows rest column_widths'
      end
  end.

(** [f"{cell:<{column_widths[i]}}" for i, cell in enumerate(cells)], from
    index [i] on. *)
Fixpoint format_cells (cells : list string) (i : nat)
    (column_widths : list nat) : option (list string) :=
  match cells with
  | [] => Some []
  | cell :: rest =>
      match nth_error column_widths i with
      | None => None
      | Some w =>
          option_map (cons (ljust cell w))
                     (format_cells rest (S i) column_widths)
      end
  end.

(** [" | ".join(...)] of the formatted cells. *)
Definition format_line (cells : list string) (column_widths : list nat)
  : option string :=
  option_map (String.concat " | ") (format_cells cells 0 column_widths).

(** The line a list of cells gives under a list of column widths: each
    cell left-justified in the width of its column (first cell with first
    width, and so on), the padded cells joined by [" | "]. *)
Definition justified_line (cells : list string) (column_widths : list nat)
  : string :=
  String.concat " | "
    (map (fun p => ljust (fst p) (snd p)) (combine cells column_widths)).

(** Length of [sep.join(l)] from the length of [sep] and the lengths of
    the parts (used to state how wide a line is). *)
Fixpoint joined_length (sep : nat) (lens : list nat) : nat :=
  match lens with
  | [] => 0
  | x :: rest =>
      match rest with
      | [] => x
      | _ :: _ => (x + sep + joined_length sep rest)%nat
      end
  end.

(** The [for row in rows] loop that echoes the rows. *)
Fixpoint echo_rows (rows : list (list string)) (column_widths : list nat)
    (out : list echoed) : table_result :=
  match rows with
  | [] => Printed out
  | row :: rest =>
      match format_line row column_widths with
      | None => IndexError out
      | Some row_line => echo_rows rest column_widths (out ++ [Plain row_line])
      end
  end.

Definition print_table (headers : list string) (rows : list (list string))
  : table_result :=
  match rows with
  | [] => Printed [Plain "No data to display."]
  | _ :: _ =>
      match widen_rows rows (map String.length headers) with
      | None => IndexError []
      | Some column_widths =>
          match format_line headers column_widths with
          | None => IndexError []
          | Some header_line =>
              echo_rows rows column_widths
                [Cyan true header_line;
                 Cyan false
                   (repeat_string "-" (String.length header_line))]
          end
      end
  end.

(** ** Tables ([models.py]) and operations ([inventory_manager.py]) *)

Section Model.
Context {price : Type}.
Variable price_times : price -> Z -> price.

Record TreeType := {
  tt_id : Z;
  tt_name : string;
  tt_description : option string;
  tt_base_unit_price : price
}.

Record Location := {
  loc_id : Z;
  loc_name : string;
  loc_description : option string
}.

Record Stock := {
  s_id : Z;
  s_tree_type_id : Z;
  s_location_id : Z;
  s_quantity : Z;
  s_date_added : datetime;
  s_cost_per_seedling : price
}.

Record Transaction := {
  t_id : Z;
  t_tree_type_id : Z;
  t_quantity_sold : Z;
  t_unit_sale_price_at_time_of_sale : price;
  t_total_amount : price;
  t_transaction_date : datetime
}.

Record DB := {
  tree_types : list TreeType;
  locations : list Location;
  stock : list Stock;
  transactions : list Transaction
}.

Definition set_stock (db : DB) (tbl : list Stock) : DB :=
  {| tree_types := tree_types db; locations := locations db;
     stock := tbl; transactions := transactions db |}.

(** Rowid of the next inserted row. *)
Definition next_id {R : Type} (id : R -> Z) (rows : list R) : Z :=
  1 + fold_right Z.max 0 (map id rows).

(** *** Attribute access through the identity map *)

Definition lookup_stock (sid : Z) (tbl : list Stock) : option Stock :=
  find (fun s => s_id s =? sid) tbl.

Definition quantity_of (sid : Z) (tbl : list Stock) : Z :=
  match lookup_stock sid tbl with
  | Some s => s_quantity s
  | None => 0
  end.

Definition with_quantity (q : Z) (s : Stock) : Stock :=
  {| s_id := s_id s; s_tree_type_id := s_tree_type_id s;
     s_location_id := s_location_id s; s_quantity := q;
     s_date_added := s_date_added s;
     s_cost_per_seedling := s_cost_per_seedling s |}.

Definition update_row (sid : Z) (f : Stock -> Stock) (tbl : list Stock)
  : list Stock :=
  map (fun s => if s_id s =? sid then f s else s) tbl.

(** [obj.quantity = q] *)
Definition set_quantity (sid q : Z) (tbl : list Stock) : list Stock :=
  update_row sid (with_quantity q) tbl.

(** [obj.quantity += d] *)
Definition add_quantity (sid d : Z) (tbl : list Stock) : list Stock :=
  update_row sid (fun s => with_quantity (s_quantity s + d) s) tbl.

(** [db.refresh(obj)]: read the row back by primary key. *)
Definition refresh (tbl : list Stock) (s : Stock) : Stock :=
  match lookup_stock (s_id s) tbl with
  | Some s' => s'
  | None => s
  end.

(** *** Reads *)

Definition get_tree_type_by_id (tree_type_id : Z) (db : DB)
  : option TreeType :=
  find (fun t => tt_id t =? tree_type_id) (tree_types db).

Definition get_stock_by_id (stock_id : Z) (db : DB) : option Stock :=
  lookup_stock stock_id (stock db).

(** [if tree_type_id:] on an [Optional[int]]: [None] and [0] are falsy. *)
Definition filter_if_truthy (col : Stock -> Z) (arg : option Z)
    (query : list Stock) : list Stock :=
  match arg with
  | Some v => if v =? 0 then query else filter (fun s => col s =? v) query
  | None => query
  end.

Definition get_all_stock_entries (tree_type_id location_id : option Z)
    (db : DB) : list Stock :=
  let query := stock db in
  let query := filter_if_truthy s_tree_type_id tree_type_id query in
  let query := filter_if_truthy s_location_id location_id query in
  query.

(** [db.query(Stock).filter(Stock.tree_type_id == t,
    Stock.location_id == l).first()] *)
Definition find_lot_at (tree_type_id location_id : Z) (tbl : list Stock)
  : option Stock :=
  find (fun s => (s_tree_type_id s =? tree_type_id)
                 && (s_location_id s =? location_id)) tbl.

(** [s] is the first row of [tbl], in table order, that is of the given
    tree type at the given location. *)
Definition first_lot_at (tree_type_id location_id : Z) (tbl : list Stock)
    (s : Stock) : Prop :=
  exists before after,
    tbl = before ++ s :: after
    /\ s_tree_type_id s = tree_type_id
    /\ s_location_id s = location_id
    /\ forall x, In x before ->
         ~ (s_tree_type_id x = tree_type_id /\ s_location_id x = location_id).

(** *** Stock operations *)

Definition add_stock_entry (now : datetime)
    (tree_type_id location_id quantity : Z) (cost_per_seedling : price)
    (db : DB) : Stock * DB :=
  let db_stock :=
    {| s_id := next_id s_id (stock db);
       s_tree_type_id := tree_type_id;
       s_location_id := location_id;
       s_quantity := quantity;
       s_date_added := now;
       s_cost_per_seedling := cost_per_seedling |} in
  (db_stock, set_stock db (stock db ++ [db_stock])).

Definition update_stock_quantity (stock_id new_quantity : Z) (db : DB)
  : option Stock * DB :=
  match get_stock_by_id stock_id db with
  | Some db_stock =>
      let tbl := set_quantity stock_id new_quantity (stock db) in
      (Some (refresh tbl db_stock), set_stock db tbl)
  | None => (None, db)
  end.

Definition move_stock_quantity (now : datetime)
    (from_stock_id to_location_id quantity_to_move : Z) (db : DB)
  : option (Stock * Stock) * DB :=
  match get_stock_by_id from_stock_id db with
  | None => (None, db)
  | Some from_stock =>
      if s_quantity from_stock <? quantity_to_move then (None, db)
      else
        let existing_to_stock :=
          find_lot_at (s_tree_type_id from_stock) to_location_id
                      (stock db) in
        let '(to_stock, tbl1) :=
          match existing_to_stock with
          | Some e => (e, add_quantity (s_id e) quantity_to_move (stock db))
          | None =>
              let n :=
                {| s_id := next_id s_id (stock db);
                   s_tree_type_id := s_tree_type_id from_stock;
                   s_location_id := to_location_id;
                   s_quantity := quantity_to_move;
                   s_date_added := now;
                   s_cost_per_seedling := s_cost_per_seedling from_stock |}
              in (n, stock db ++ [n])
          end in
        let tbl2 := add_quantity from_stock_id (- quantity_to_move) tbl1 in
        (Some (refresh tbl2 from_stock, refresh tbl2 to_stock),
         set_stock db tbl2)
  end.

(** *** Sales *)

Definition available_stock_entries (tree_type_id : Z) (db : DB)
  : list Stock :=
  order_by_asc s_date_added
    (filter (fun s => (s_tree_type_id s =? tree_type_id)
                      && (0 <? s_quantity s))
            (stock db)).

(** The [for stock_entry in available_stock_entries] loop; [entries] are
    the ids of the objects the query returned, in query order. *)
Fixpoint sell_loop (entries : list Z) (remaining_to_sell : Z)
    (tbl : list Stock) : list Stock :=
  match entries with
  | [] => tbl
  | stock_entry :: rest =>
      if remaining_to_sell <=? 0 then tbl
      else if quantity_of stock_entry tbl >=? remaining_to_sell then
        sell_loop rest 0
          (add_quantity stock_entry (- remaining_to_sell) tbl)
      else
        sell_loop rest (remaining_to_sell - quantity_of stock_entry tbl)
          (set_quantity stock_entry 0 tbl)
  end.

Definition record_sale (now : datetime) (tree_type_id quantity_sold : Z)
    (db : DB) : option Transaction * DB :=
  match get_tree_type_by_id tree_type_id db with
  | None => (None, db)
  | Some tree_type =>
      let available := available_stock_entries tree_type_id db in
      let total_available_quantity := sum (map s_quantity available) in
      if total_available_quantity <? quantity_sold then (None, db)
      else
        let tbl := sell_loop (map s_id available) quantity_sold (stock db) in
        let unit_sale_price := tt_base_unit_price tree_type in
        let total_amount := price_times unit_sale_price quantity_sold in
        let db_transaction :=
          {| t_id := next_id t_id (transactions db);
             t_tree_type_id := tree_type_id;
             t_quantity_sold := quantity_sold;
             t_unit_sale_price_at_time_of_sale := unit_sale_price;
             t_total_amount := total_amount;
             t_transaction_date := now |} in
        (Some db_transaction,
         {| tree_types := tree_types db; locations := locations db;
            stock := tbl;
            transactions := transactions db ++ [db_transaction] |})
  end.

(** [start_date] and [end_date] are [Optional[datetime.date]]; a date
    object is always truthy, so the filter applies exactly when given. *)
Definition get_all_transactions (start_date end_date : option date)
    (db : DB) : py_result (list Transaction) * DB :=
  let query := transactions db in
  let query :=
    match start_date with
    | Some d => filter (fun t => midnight d <=? t_transaction_date t) query
    | None => query
    end in
  match end_date with
  | Some d =>
      match date_plus_days d 1 with
      | Returned d1 =>
          (Returned
             (order_by_desc t_transaction_date
                (filter (fun t => t_transaction_date t <? midnight d1)
                        query)), db)
      | OverflowError => (OverflowError, db)
      end
  | None => (Returned (order_by_desc t_transaction_date query), db)
  end.

(** *** Derived quantities used to state the properties *)

(** The transaction lies in the queried window: on or after midnight of
    the start date, and before midnight of the day after the end date. *)
Definition in_window (start_date end_date : option date) (t : Transaction)
  : bool :=
  match start_date with
  | Some d => midnight d <=? t_transaction_date t
  | None => true
  end
  && match end_date with
     | Some d => t_transaction_date t <? midnight (d + 1)
     | None => true
     end.

Definition total_quantity (tbl : list Stock) : Z :=
  sum (map s_quantity tbl).

Definition total_of_type (tree_type_id : Z) (tbl : list Stock) : Z :=
  total_quantity (filter (fun s => s_tree_type_id s =? tree_type_id) tbl).

Definition total_at (tree_type_id location_id : Z) (tbl : list Stock) : Z :=
  total_quantity
    (filter (fun s => (s_tree_type_id s =? tree_type_id)
                      && (s_location_id s =? location_id)) tbl).

(** [total_available_quantity] of [record_sale]. *)
Definition total_available (tree_type_id : Z) (db : DB) : Z :=
  sum (map s_quantity (available_stock_entries tree_type_id db)).

(** Primary key: no two lots share an id. *)
Definition stock_wf (db : DB) : Prop := NoDup (map s_id (stock db)).

Definition stock_nonneg (db : DB) : Prop :=
  Forall (fun s => 0 <= s_quantity s) (stock db).

(** Two tables hold the same lots when they agree on everything but the
    quantities. *)
Definition same_lots (tbl tbl' : list Stock) : Prop :=
  map (with_quantity 0) tbl = map (with_quantity 0) tbl'.

(** [f] writes nothing but the quantity of a row. *)
Definition quantity_only (f : Stock -> Stock) : Prop :=
  forall s, with_quantity 0 (f s) = with_quantity 0 s.

(** Every lot of [tbl] is still a row of [tbl'], in the same place and
    the same but for its quantity; [tbl'] may have further rows. *)
Definition lots_persist (tbl tbl' : list Stock) : Prop :=
  exists added,
    map (with_quantity 0) tbl' = map (with_quantity 0) tbl ++ added.

(** *** Ledger commands and runs *)

Inductive ledger_op : Type :=
| OpAdd (now : datetime) (tree_type_id location_id quantity : Z)
        (cost_per_seedling : price)
| OpMove (now : datetime) (from_stock_id to_location_id quantity : Z)
| OpSale (now : datetime) (tree_type_id quantity : Z)
| OpUpdate (stock_id new_quantity : Z).

Definition exec (op : ledger_op) (db : DB) : DB :=
  match op with
  | OpAdd now t l q c => snd (add_stock_entry now t l q c db)
  | OpMove now f l q => snd (move_stock_quantity now f l q db)
  | OpSale now t q => snd (record_sale now t q db)
  | OpUpdate i q => snd (update_stock_quantity i q db)
  end.

(** The precondition each command states on its argument: a positive
    quantity to add, move or sell; a quantity (an integer >= 0) to set. *)
Definition op_pre (op : ledger_op) : Prop :=
  match op with
  | OpAdd _ _ _ q _ => 0 < q
  | OpMove _ _ _ q => 0 < q
  | OpSale _ _ q => 0 < q
  | OpUpdate _ q => 0 <= q
  end.

Definition run (ops : list ledger_op) (db : DB) : DB :=
  fold_left (fun d op => exec op d) ops db.

(** *** The catalogue: tree types and locations *)

(** [name = Column(String, unique=True, nullable=False)]: the store
    refuses a row whose name is already in the table. *)
Definition name_taken {R : Type} (name_of : R -> string) (name : string)
    (rows : list R) : bool :=
  existsb (fun r => String.eqb (name_of r) name) rows.

Definition create_tree_type (name : string) (base_price : price)
    (description : option string) (db : DB) : store_result TreeType * DB :=
  let db_tree_type :=
    {| tt_id := next_id tt_id (tree_types db);
       tt_name := name;
       tt_description := description;
       tt_base_unit_price := base_price |} in
  if name_taken tt_name name (tree_types db) then (IntegrityError, db)
  else
    (Committed db_tree_type,
     {| tree_types := tree_types db ++ [db_tree_type];
        locations := locations db; stock := stock db;
        transactions := transactions db |}).

Definition get_all_tree_types (db : DB) : list TreeType := tree_types db.

Definition create_location (name : string) (description : option string)
    (db : DB) : store_result Location * DB :=
  let db_location :=
    {| loc_id := next_id loc_id (locations db);
       loc_name := name;
       loc_description := description |} in
  if name_taken loc_name name (locations db) then (IntegrityError, db)
  else
    (Committed db_location,
     {| tree_types := tree_types db;
        locations := locations db ++ [db_location]; stock := stock db;
        transactions := transactions db |}).

Definition get_location_by_id (location_id : Z) (db : DB)
  : option Location :=
  find (fun l => loc_id l =? location_id) (locations db).

Definition get_all_locations (db : DB) : list Location := locations db.

(** *** Accounting quantities used to state the properties *)

(** Seedlings recorded as sold by the transaction table. *)
Definition units_sold (db : DB) : Z :=
  sum (map t_quantity_sold (transactions db)).

(** Seedlings the add commands of a run bring in. *)
Definition units_added (ops : list ledger_op) : Z :=
  sum (map (fun op => match op with
                      | OpAdd _ _ _ q _ => q
                      | _ => 0
                      end) ops).

Definition is_update (op : ledger_op) : bool :=
  match op with
  | OpUpdate _ _ => true
  | _ => false
  end.
End Model.

(** ** Sample stores (prices as integers, e.g. cents) *)

Module Samples.
Definition oak : @TreeType Z :=
  {| tt_id := 1; tt_name := "Oak"; tt_description := None;
     tt_base_unit_price := 250 |}.

Definition lot (i t l q d c : Z) : @Stock Z :=
  {| s_id := i; s_tree_type_id := t; s_location_id := l; s_quantity := q;
     s_date_added := d; s_cost_per_seedling := c |}.

Definition sale (i t q u d : Z) : @Transaction Z :=
  {| t_id := i; t_tree_type_id := t; t_quantity_sold := q;
     t_unit_sale_price_at_time_of_sale := u; t_total_amount := u * q;
     t_transaction_date := d |}.

Definition store (lots : list (@Stock Z)) (txs : list (@Transaction Z))
  : @DB Z :=
  {| tree_types := [oak]; locations := []; stock := lots;
     transactions := txs |}.

(** Lot A (10 seedlings, day 1) and lot B (5 seedlings, day 2), entered
    newest first. *)
Definition two_lots : @DB Z :=
  store [lot 1 1 1 5 (midnight 2) 7; lot 2 1 1 10 (midnight 1) 7] [].

(** One lot of 10 at location 1. *)
Definition one_lot : @DB Z := store [lot 1 1 1 10 (midnight 1) 7] [].

(** A lot of 10 at location 1 and a lot of 3 at location 2. *)
Definition two_places : @DB Z :=
  store [lot 1 1 1 10 (midnight 1) 7; lot 2 1 2 3 (midnight 2) 9] [].

(** A run of the ledger from an empty lot table. *)
Definition season : list (@ledger_op Z) :=
  [OpAdd (midnight 1) 1 1 10 7; OpAdd (midnight 2) 1 1 5 7;
   OpSale (midnight 3) 1 12; OpMove (midnight 4) 2 2 1;
   OpUpdate 1 0].

(** A run without direct quantity updates. *)
Definition deliveries : list (@ledger_op Z) :=
  [OpAdd (midnight 1) 1 1 10 7; OpAdd (midnight 2) 1 2 5 7;
   OpSale (midnight 3) 1 12; OpMove (midnight 4) 2 1 2;
   OpSale (midnight 5) 1 9].

(** Lots entered under tree-type id 7, which has no tree-type row. *)
Definition stray_lots : list (@ledger_op Z) :=
  [OpAdd (midnight 1) 7 1 10 7; OpAdd (midnight 2) 7 2 5 7].

Definition table_headers : list string := ["ID"; "Name"; "Price"]%string.

Definition table_rows : list (list string) :=
  [["1"; "Oak"; "$2.50"]; ["12"; "Silver birch"; "$10.00"];
   ["3"; "Fir"]]%string.

Definition history : @DB Z :=
  store [] [sale 1 1 2 250 (midnight 10 + 5);
            sale 2 1 1 250 (midnight 12 + 86399999999);
            sale 3 1 4 250 (midnight 13)].
End Samples.

(** ** Sorting lemmas *)

Section OrderByFacts.
Context {A : Type}.
Variable key : A -> Z.

Lemma insert_asc_perm (x : A) (l : list A) :
  Permutation (insert_asc key x l) (x :: l).
Proof.
  induction l as [|y l IH]; simpl.
  - apply Permutation_refl.
  - destruct (key x <=? key y).
    + apply Permutation_refl.
    + eapply perm_trans; [apply perm_skip, IH | apply perm_swap].
Qed.

Lemma order_by_asc_perm (l : list A) : Permutation (order_by_asc key l) l.
Proof.
  induction l as [|x l IH]; simpl.
  - constructor.
  - eapply perm_trans; [apply insert_asc_perm | now apply perm_skip].
Qed.

Lemma insert_asc_sorted (x : A) (l : list A) :
  StronglySorted (key_le key) l ->
  StronglySorted (key_le key) (insert_asc key x l).
Proof.
  induction 1 as [|y l Hs IH Hall]; simpl.
  - repeat constructor.
  - destruct (key x <=? key y) eqn:E.
    + apply Z.leb_le in E. constructor.
      * now constructor.
      * constructor; [exact E|].
        eapply Forall_impl; [|exact Hall].
        unfold key_le; intros; lia.
    + apply Z.leb_gt in E. constructor; [exact IH|].
      eapply Permutation_Forall.
      * apply Permutation_sym, insert_asc_perm.
      * constructor; [unfold key_le; lia | exact Hall].
Qed.

Lemma order_by_asc_sorted (l : list A) :
  StronglySorted (key_le key) (order_by_asc key l).
Proof.
  induction l as [|x l IH]; simpl.
  - constructor.
  - now apply insert_asc_sorted.
Qed.

Lemma order_by_asc_In (l : list A) (a : A) :
  In a (order_by_asc key l) <-> In a l.
Proof.
  split; apply Permutation_in;
    [apply order_by_asc_perm | apply Permutation_sym, order_by_asc_perm].
Qed.

(** In a sorted list, an element with a strictly smaller key than [b]
    stands before [b]. *)
Lemma sorted_split_before (l1 l2 : list A) (a b : A) :
  StronglySorted (key_le key) (l1 ++ b :: l2) ->
  In a (l1 ++ b :: l2) -> key a < key b -> In a l1.
Proof.
  induction l1 as [|c l1 IH]; simpl; intros Hs Hin Hlt.
  - inversion Hs as [|? ? _ Hall]; subst.
    destruct Hin as [->|Hin]; [lia|].
    rewrite Forall_forall in Hall. apply Hall in Hin.
    unfold key_le in Hin. lia.
  - inversion Hs as [|? ? Hs' _]; subst.
    destruct Hin as [->|Hin]; [now left|].
    right. now apply IH.
Qed.
End OrderByFacts.

Lemma order_by_desc_perm {A : Type} (key : A -> Z) (l : list A) :
  Permutation (order_by_desc key l) l.
Proof. apply order_by_asc_perm. Qed.

Lemma order_by_desc_sorted {A : Type} (key : A -> Z) (l : list A) :
  StronglySorted (fun a b => key b <= key a) (order_by_desc key l).
Proof.
  unfold order_by_desc.
  generalize (order_by_asc_sorted (fun a => - key a) l).
  induction 1 as [|x l' Hs IH Hall]; constructor; [exact IH|].
  eapply Forall_impl; [|exact Hall].
  unfold key_le; intros; lia.
Qed.

Lemma sum_app (l1 l2 : list Z) : sum (l1 ++ l2) = sum l1 + sum l2.
Proof. induction l1; simpl; lia. Qed.

Lemma sum_perm (l1 l2 : list Z) : Permutation l1 l2 -> sum l1 = sum l2.
Proof. induction 1; simpl; lia. Qed.

(** ** Rows, lookups and updates *)

Section TableFacts.
Context {price : Type}.
Implicit Types (tbl : list (@Stock price)) (s : @Stock price).

Lemma with_quantity_only q : @quantity_only price (with_quantity q).
Proof. intros s. reflexivity. Qed.

Lemma add_quantity_only d :
  @quantity_only price (fun s => with_quantity (s_quantity s + d) s).
Proof. intros s. reflexivity. Qed.

Lemma quantity_only_id f s : quantity_only f -> s_id (f s) = s_id s.
Proof. intros H. exact (f_equal s_id (H s)). Qed.

Lemma quantity_only_type f s :
  quantity_only f -> s_tree_type_id (f s) = s_tree_type_id s.
Proof. intros H. exact (f_equal s_tree_type_id (H s)). Qed.

Lemma quantity_only_location f s :
  quantity_only f -> s_location_id (f s) = s_location_id s.
Proof. intros H. exact (f_equal s_location_id (H s)). Qed.

Lemma same_lots_ids tbl tbl' :
  same_lots tbl tbl' -> map s_id tbl = map s_id tbl'.
Proof.
  unfold same_lots. intros H.
  apply (f_equal (map s_id)) in H. rewrite !map_map in H. exact H.
Qed.

Lemma same_lots_update_row sid f tbl :
  quantity_only f -> same_lots tbl (update_row sid f tbl).
Proof.
  intros Hf. unfold same_lots, update_row. rewrite map_map.
  apply map_ext. intros s. destruct (s_id s =? sid); [|reflexivity].
  symmetry. apply Hf.
Qed.

Lemma update_row_ids sid f tbl :
  quantity_only f -> map s_id (update_row sid f tbl) = map s_id tbl.
Proof.
  intros Hf. symmetry. now apply same_lots_ids, same_lots_update_row.
Qed.

Lemma lookup_stock_In sid tbl s :
  lookup_stock sid tbl = Some s -> In s tbl /\ s_id s = sid.
Proof.
  unfold lookup_stock. intros H. apply find_some in H.
  destruct H as [Hin Heq]. apply Z.eqb_eq in Heq. now split.
Qed.

Lemma lookup_stock_None sid tbl :
  lookup_stock sid tbl = None -> ~ In sid (map s_id tbl).
Proof.
  unfold lookup_stock. intros H Hin. apply in_map_iff in Hin.
  destruct Hin as [s [Hid Hin]].
  pose proof (find_none _ _ H s Hin) as Hn. simpl in Hn.
  apply Z.eqb_neq in Hn. contradiction.
Qed.

Lemma lookup_stock_found sid tbl :
  In sid (map s_id tbl) -> exists s, lookup_stock sid tbl = Some s.
Proof.
  intros Hin. destruct (lookup_stock sid tbl) as [s|] eqn:E.
  - now exists s.
  - now apply lookup_stock_None in E.
Qed.

Lemma lookup_stock_unique tbl s :
  NoDup (map s_id tbl) -> In s tbl -> lookup_stock (s_id s) tbl = Some s.
Proof.
  unfold lookup_stock.
  induction tbl as [|x tl IH]; simpl; intros Hnd Hin; [contradiction|].
  inversion Hnd as [|? ? Hx Hnd']; subst.
  destruct (s_id x =? s_id s) eqn:E.
  - apply Z.eqb_eq in E. destruct Hin as [->|Hin]; [reflexivity|].
    exfalso. apply Hx. rewrite E. now apply in_map.
  - apply Z.eqb_neq in E. destruct Hin as [->|Hin]; [contradiction|].
    now apply IH.
Qed.

Lemma quantity_of_unique tbl s :
  NoDup (map s_id tbl) -> In s tbl -> quantity_of (s_id s) tbl = s_quantity s.
Proof.
  intros Hnd Hin. unfold quantity_of.
  now rewrite lookup_stock_unique.
Qed.

Lemma lookup_update_row i sid f tbl :
  quantity_only f ->
  lookup_stock i (update_row sid f tbl) =
  if i =? sid then option_map f (lookup_stock i tbl)
  else lookup_stock i tbl.
Proof.
  intros Hf. unfold lookup_stock, update_row.
  induction tbl as [|x tl IH]; simpl.
  - now destruct (i =? sid).
  - destruct (s_id x =? sid) eqn:Ex.
    + rewrite (quantity_only_id f x Hf).
      destruct (s_id x =? i) eqn:Ei.
      * apply Z.eqb_eq in Ex, Ei. subst. now rewrite Z.eqb_refl.
      * exact IH.
    + destruct (s_id x =? i) eqn:Ei.
      * apply Z.eqb_eq in Ei. subst i. now rewrite Ex.
      * exact IH.
Qed.

Lemma quantity_of_update_other i sid f tbl :
  quantity_only f -> i <> sid ->
  quantity_of i (update_row sid f tbl) = quantity_of i tbl.
Proof.
  intros Hf Hne. unfold quantity_of. rewrite lookup_update_row by exact Hf.
  apply Z.eqb_neq in Hne. now rewrite Hne.
Qed.

Lemma quantity_of_set_same sid q tbl :
  In sid (map s_id tbl) -> quantity_of sid (set_quantity sid q tbl) = q.
Proof.
  intros Hin. unfold quantity_of, set_quantity.
  rewrite lookup_update_row by apply with_quantity_only.
  rewrite Z.eqb_refl.
  destruct (lookup_stock_found _ _ Hin) as [s ->]. reflexivity.
Qed.

Lemma quantity_of_add_same sid d tbl :
  In sid (map s_id tbl) ->
  quantity_of sid (add_quantity sid d tbl) = quantity_of sid tbl + d.
Proof.
  intros Hin. unfold quantity_of, add_quantity.
  rewrite lookup_update_row by apply add_quantity_only.
  rewrite Z.eqb_refl.
  destruct (lookup_stock_found _ _ Hin) as [s ->]. reflexivity.
Qed.

Lemma update_row_absent sid f tbl :
  ~ In sid (map s_id tbl) -> update_row sid f tbl = tbl.
Proof.
  unfold update_row. induction tbl as [|x tl IH]; simpl; intros Hn.
  - reflexivity.
  - destruct (s_id x =? sid) eqn:E.
    + apply Z.eqb_eq in E. exfalso. apply Hn. now left.
    + f_equal. apply IH. intros H. apply Hn. now right.
Qed.

(** Under the primary key, an update moves the table's total by the
    change of the one row it writes. *)
Lemma total_update_row sid f tbl s :
  NoDup (map s_id tbl) -> lookup_stock sid tbl = Some s ->
  total_quantity (update_row sid f tbl) =
  total_quantity tbl - s_quantity s + s_quantity (f s).
Proof.
  unfold total_quantity, lookup_stock.
  induction tbl as [|x tl IH]; simpl; intros Hnd Hl; [discriminate|].
  inversion Hnd as [|? ? Hx Hnd']; subst.
  destruct (s_id x =? sid) eqn:E.
  - injection Hl as ->. apply Z.eqb_eq in E. subst sid.
    fold (update_row (s_id s) f tl).
    rewrite update_row_absent by exact Hx. lia.
  - fold (update_row sid f tl). rewrite (IH Hnd' Hl). lia.
Qed.

Lemma NoDup_ids_filter (p : @Stock price -> bool) tbl :
  NoDup (map s_id tbl) -> NoDup (map s_id (filter p tbl)).
Proof.
  induction tbl as [|x tl IH]; simpl; intros Hnd; [constructor|].
  inversion Hnd as [|? ? Hx Hnd']; subst.
  destruct (p x); simpl; [constructor|]; auto.
  intros Hin. apply Hx. apply in_map_iff in Hin.
  destruct Hin as [y [Hy Hin]]. apply filter_In in Hin.
  rewrite <- Hy. apply in_map. tauto.
Qed.

Lemma filter_update_row (p : @Stock price -> bool) sid f tbl :
  (forall s, p (f s) = p s) ->
  filter p (update_row sid f tbl) = update_row sid f (filter p tbl).
Proof.
  intros Hp. unfold update_row.
  induction tbl as [|x tl IH]; simpl; [reflexivity|].
  destruct (s_id x =? sid) eqn:E.
  - rewrite Hp. destruct (p x); simpl; [rewrite E; f_equal|]; exact IH.
  - destruct (p x); simpl; [rewrite E; f_equal|]; exact IH.
Qed.

(** The same for the total of any selection of rows that does not look
    at quantities. *)
Lemma total_filter_update_row (p : @Stock price -> bool) sid f tbl s :
  (forall s, p (f s) = p s) ->
  NoDup (map s_id tbl) -> lookup_stock sid tbl = Some s ->
  total_quantity (filter p (update_row sid f tbl)) =
  total_quantity (filter p tbl)
  + (if p s then s_quantity (f s) - s_quantity s else 0).
Proof.
  intros Hp Hnd Hl. rewrite filter_update_row by exact Hp.
  destruct (lookup_stock_In _ _ _ Hl) as [Hin Hid].
  destruct (p s) eqn:Eps.
  - rewrite (total_update_row sid f _ s).
    + lia.
    + now apply NoDup_ids_filter.
    + rewrite <- Hid. apply lookup_stock_unique.
      * now apply NoDup_ids_filter.
      * apply filter_In. now split.
  - rewrite update_row_absent; [lia|].
    intros Hin'. apply in_map_iff in Hin'.
    destruct Hin' as [y [Hy Hiny]]. apply filter_In in Hiny.
    destruct Hiny as [Hiny Hpy].
    assert (y = s).
    { pose proof (lookup_stock_unique tbl y Hnd Hiny) as Hu.
      rewrite Hy, Hl in Hu. now injection Hu. }
    subst y. congruence.
Qed.
End TableFacts.

(** ** The consumption loop *)

Section SellLoopFacts.
Context {price : Type}.
Implicit Types (tbl : list (@Stock price)) (entries : list Z).

Lemma sell_loop_done entries tbl : sell_loop entries 0 tbl = tbl.
Proof. destruct entries; reflexivity. Qed.

Lemma sum_quantities_ext entries tbl tbl' :
  (forall e, In e entries -> quantity_of e tbl' = quantity_of e tbl) ->
  sum (map (fun e => quantity_of e tbl') entries) =
  sum (map (fun e => quantity_of e tbl) entries).
Proof.
  intros H. f_equal. apply map_ext_in. exact H.
Qed.

(** What the loop does to a table, when it is entered with distinct
    references to rows that hold stock and with no more to sell than those
    rows hold together. *)
Lemma sell_loop_spec entries :
  forall remaining tbl,
    NoDup (map s_id tbl) ->
    NoDup entries ->
    (forall e, In e entries -> In e (map s_id tbl)) ->
    (forall e, In e entries -> 0 < quantity_of e tbl) ->
    0 <= remaining <= sum (map (fun e => quantity_of e tbl) entries) ->
    let tbl' := sell_loop entries remaining tbl in
    same_lots tbl tbl'
    /\ (forall i, ~ In i entries -> quantity_of i tbl' = quantity_of i tbl)
    /\ (forall i, In i entries ->
                  0 <= quantity_of i tbl' <= quantity_of i tbl)
    /\ total_quantity tbl - total_quantity tbl' = remaining
    /\ (forall l1 b l2, entries = l1 ++ b :: l2 ->
          quantity_of b tbl' < quantity_of b tbl ->
          forall a, In a l1 -> quantity_of a tbl' = 0).
Proof.
  induction entries as [|e rest IH]; intros remaining tbl Hk Hnd Hin Hpos Hrem.
  - simpl in *. assert (remaining = 0) by lia. subst.
    split; [reflexivity|]. split; [reflexivity|].
    split; [contradiction|]. split; [lia|]. intros; lia.
  - inversion Hnd as [|? ? Hne Hnd']; subst.
    assert (Hine : In e (map s_id tbl)) by (apply Hin; now left).
    destruct (lookup_stock_found _ _ Hine) as [se Hse].
    assert (Hqe : quantity_of e tbl = s_quantity se)
      by (unfold quantity_of; now rewrite Hse).
    pose proof (Hpos e (or_introl eq_refl)) as Hpe.
    cbv zeta. simpl sell_loop. simpl in Hrem.
    destruct (remaining <=? 0) eqn:E0.
    { apply Z.leb_le in E0. assert (remaining = 0) by lia. subst.
      split; [reflexivity|]. split; [reflexivity|].
      split; [intros i Hi; specialize (Hpos i Hi); lia|].
      split; [lia|]. intros; lia. }
    apply Z.leb_gt in E0.
    rewrite Z.geb_leb.
    destruct (remaining <=? quantity_of e tbl) eqn:E1.
    + (* this lot covers what is left *)
      apply Z.leb_le in E1. rewrite sell_loop_done.
      assert (Hsame : quantity_of e (add_quantity e (- remaining) tbl)
                      = quantity_of e tbl - remaining)
        by (rewrite quantity_of_add_same by exact Hine; lia).
      assert (Hoth : forall i, i <> e ->
                quantity_of i (add_quantity e (- remaining) tbl)
                = quantity_of i tbl)
        by (intros; apply quantity_of_update_other;
            [apply add_quantity_only | assumption]).
      split; [apply same_lots_update_row, add_quantity_only|].
      split; [intros i Hi; apply Hoth; intros ->; apply Hi; now left|].
      split.
      { intros i [<-|Hi].
        - rewrite Hsame. lia.
        - rewrite Hoth by (intros ->; contradiction).
          specialize (Hpos i (or_intror Hi)). lia. }
      split.
      { unfold add_quantity.
        rewrite (total_update_row e _ tbl se Hk Hse). simpl. lia. }
      intros l1 b l2 Heq Hlt a Ha.
      destruct l1 as [|c l1]; [contradiction|].
      simpl in Heq. injection Heq as <- Hrest.
      assert (Hb : In b rest) by (rewrite Hrest; apply in_elt).
      rewrite Hoth in Hlt by (intros ->; contradiction). lia.
    + (* this lot is drained and the loop goes on *)
      apply Z.leb_gt in E1.
      set (tbl1 := set_quantity e 0 tbl).
      assert (Hsame : quantity_of e tbl1 = 0)
        by (apply quantity_of_set_same; exact Hine).
      assert (Hoth : forall i, i <> e ->
                quantity_of i tbl1 = quantity_of i tbl)
        by (intros; apply quantity_of_update_other;
            [apply with_quantity_only | assumption]).
      assert (Hids : map s_id tbl1 = map s_id tbl)
        by (apply update_row_ids, with_quantity_only).
      assert (Hrest : forall i, In i rest ->
                quantity_of i tbl1 = quantity_of i tbl)
        by (intros i Hi; apply Hoth; intros ->; contradiction).
      assert (Htot1 : total_quantity tbl1
                      = total_quantity tbl - quantity_of e tbl).
      { unfold tbl1, set_quantity.
        rewrite (total_update_row e _ tbl se Hk Hse). simpl. lia. }
      destruct (IH (remaining - quantity_of e tbl) tbl1)
        as (I1 & I2 & I3 & I4 & I5).
      * now rewrite Hids.
      * exact Hnd'.
      * intros i Hi. rewrite Hids. apply Hin. now right.
      * intros i Hi. rewrite Hrest by exact Hi. apply Hpos. now right.
      * rewrite (sum_quantities_ext rest tbl tbl1 Hrest). lia.
      * split; [unfold same_lots in *; rewrite <- I1;
                apply same_lots_update_row, with_quantity_only|].
        split.
        { intros i Hi. rewrite I2 by (intros H; apply Hi; now right).
          apply Hoth. intros ->. apply Hi. now left. }
        split.
        { intros i [<-|Hi].
          - rewrite I2 by exact Hne. lia.
          - specialize (I3 i Hi). rewrite Hrest in I3 by exact Hi. lia. }
        split; [lia|].
        intros l1 b l2 Heq Hlt a Ha.
        destruct l1 as [|c l1]; [contradiction|].
        simpl in Heq. injection Heq as <- Heq.
        destruct Ha as [<-|Ha].
        -- rewrite I2 by exact Hne. exact Hsame.
        -- apply (I5 l1 b l2 Heq); [|exact Ha].
           rewrite Hrest; [exact Hlt|]. rewrite Heq. apply in_elt.
Qed.

(** The loop never drives a quantity below zero. *)
Lemma sell_loop_nonneg entries :
  forall remaining tbl,
    NoDup (map s_id tbl) ->
    Forall (fun s => 0 <= s_quantity s) tbl ->
    Forall (fun s => 0 <= s_quantity s) (sell_loop entries remaining tbl).
Proof.
  induction entries as [|e rest IH]; intros remaining tbl Hk Hall;
    simpl; [exact Hall|].
  destruct (remaining <=? 0) eqn:E0; [exact Hall|].
  apply Z.leb_gt in E0. rewrite Z.geb_leb.
  destruct (remaining <=? quantity_of e tbl) eqn:E1.
  - apply Z.leb_le in E1. rewrite sell_loop_done.
    unfold add_quantity, update_row. rewrite Forall_forall in *.
    intros s' Hs'. apply in_map_iff in Hs'. destruct Hs' as [s [<- Hs]].
    destruct (s_id s =? e) eqn:Ee; [|now apply Hall].
    apply Z.eqb_eq in Ee. subst e. simpl.
    rewrite (quantity_of_unique tbl s Hk Hs) in E1. lia.
  - apply IH.
    + unfold set_quantity.
      now rewrite update_row_ids by apply with_quantity_only.
    + unfold set_quantity, update_row. rewrite Forall_forall in *.
      intros s' Hs'. apply in_map_iff in Hs'. destruct Hs' as [s [<- Hs]].
      destruct (s_id s =? e); [simpl; lia | now apply Hall].
Qed.

Lemma sell_loop_same_lots entries :
  forall remaining tbl, same_lots tbl (sell_loop entries remaining tbl).
Proof.
  induction entries as [|e rest IH]; intros remaining tbl; simpl;
    [reflexivity|].
  destruct (remaining <=? 0); [reflexivity|].
  destruct (quantity_of e tbl >=? remaining).
  - rewrite sell_loop_done. apply same_lots_update_row, add_quantity_only.
  - unfold same_lots. rewrite <- IH.
    apply same_lots_update_row, with_quantity_only.
Qed.
End SellLoopFacts.

(** ** Sales *)

Section SaleFacts.
Context {price : Type}.
Variable price_times : price -> Z -> price.
Implicit Types (db : @DB price) (s a b : @Stock price).

Lemma available_In tid db s :
  In s (available_stock_entries tid db) <->
  In s (stock db) /\ s_tree_type_id s = tid /\ 0 < s_quantity s.
Proof.
  unfold available_stock_entries.
  rewrite order_by_asc_In, filter_In, andb_true_iff, Z.eqb_eq, Z.ltb_lt.
  tauto.
Qed.

Lemma available_sorted tid db :
  StronglySorted (key_le s_date_added) (available_stock_entries tid db).
Proof. apply order_by_asc_sorted. Qed.

Lemma available_NoDup tid db :
  stock_wf db -> NoDup (map s_id (available_stock_entries tid db)).
Proof.
  intros Hk. unfold available_stock_entries.
  eapply Permutation_NoDup.
  - apply Permutation_map, Permutation_sym, order_by_asc_perm.
  - now apply NoDup_ids_filter.
Qed.

Lemma total_available_filter tid db :
  total_available tid db =
  total_quantity
    (filter (fun s => (s_tree_type_id s =? tid) && (0 <? s_quantity s))
            (stock db)).
Proof.
  unfold total_available, total_quantity, available_stock_entries.
  apply sum_perm, Permutation_map, order_by_asc_perm.
Qed.

(** When no quantity is negative, the available total is the total over
    all lots of the type. *)
Lemma total_available_all_lots tid db :
  stock_nonneg db -> total_available tid db = total_of_type tid (stock db).
Proof.
  intros Hn. rewrite total_available_filter.
  unfold total_of_type, total_quantity, stock_nonneg in *.
  induction Hn as [|x tl Hx Hn IH]; simpl; [reflexivity|].
  destruct (s_tree_type_id x =? tid); simpl; [|exact IH].
  destruct (0 <? s_quantity x) eqn:E; simpl; rewrite IH; [reflexivity|].
  apply Z.ltb_ge in E. lia.
Qed.

Lemma same_id_same_lot db a b :
  stock_wf db -> In a (stock db) -> In b (stock db) ->
  s_id a = s_id b -> a = b.
Proof.
  intros Hk Ha Hb Hid.
  pose proof (lookup_stock_unique _ a Hk Ha) as H1.
  pose proof (lookup_stock_unique _ b Hk Hb) as H2.
  rewrite Hid, H2 in H1. now injection H1.
Qed.

Lemma sum_map_sub {X : Type} (f g : X -> Z) (l : list X) :
  sum (map (fun x => f x - g x) l) = sum (map f l) - sum (map g l).
Proof. induction l; simpl; lia. Qed.

Lemma total_by_ids (tbl : list (@Stock price)) :
  NoDup (map s_id tbl) ->
  sum (map (fun i => quantity_of i tbl) (map s_id tbl)) = total_quantity tbl.
Proof.
  intros Hk. unfold total_quantity. rewrite map_map. f_equal.
  apply map_ext_in. intros s Hs. now apply quantity_of_unique.
Qed.

(** The loop of [record_sale], entered from the query of [record_sale]. *)
Lemma sale_loop_spec tid q db :
  stock_wf db -> 0 <= q <= total_available tid db ->
  let entries := map s_id (available_stock_entries tid db) in
  let tbl' := sell_loop entries q (stock db) in
  same_lots (stock db) tbl'
  /\ (forall i, ~ In i entries ->
                quantity_of i tbl' = quantity_of i (stock db))
  /\ (forall i, In i entries ->
                0 <= quantity_of i tbl' <= quantity_of i (stock db))
  /\ total_quantity (stock db) - total_quantity tbl' = q
  /\ (forall l1 (j : Z) l2, entries = l1 ++ j :: l2 ->
        quantity_of j tbl' < quantity_of j (stock db) ->
        forall i : Z, In i l1 -> quantity_of i tbl' = 0).
Proof.
  intros Hk Hq. apply sell_loop_spec.
  - exact Hk.
  - now apply available_NoDup.
  - intros e He. apply in_map_iff in He. destruct He as [s [<- Hs]].
    apply available_In in Hs. apply in_map. tauto.
  - intros e He. apply in_map_iff in He. destruct He as [s [<- Hs]].
    apply available_In in Hs.
    rewrite quantity_of_unique; tauto.
  - rewrite map_map.
    replace (map (fun s => quantity_of (s_id s) (stock db))
                 (available_stock_entries tid db))
      with (map s_quantity (available_stock_entries tid db)); [exact Hq|].
    apply map_ext_in. intros s Hs. apply available_In in Hs.
    symmetry. apply quantity_of_unique; tauto.
Qed.
End SaleFacts.

(** ** The ledger properties *)

Section Ledger.
Context {price : Type}.
Variable price_times : price -> Z -> price.
Implicit Types (db : @DB price) (s : @Stock price).

(** C1.  A sale of an existing tree type for a quantity [q >= 0] that the
    available lots (quantity > 0) of the type cover succeeds with exactly
    one new Transaction, whose total is unit price times quantity sold.
    The lots stay the same rows, none grows, only lots of the sold type
    change, and the decrements add up to exactly [q].  Lots are consumed
    oldest first: a lot is touched only when every available lot of the
    type with an earlier creation time -- indeed every lot that precedes it
    in the query's ascending time order -- has been drained to zero. *)
Theorem record_sale_consumes_oldest_first
    (now : datetime) (tid q : Z) db (tt : @TreeType price) :
  stock_wf db ->
  get_tree_type_by_id tid db = Some tt ->
  0 <= q ->
  q <= total_available tid db ->
  exists tx db',
    record_sale price_times now tid q db = (Some tx, db')
    /\ transactions db' = transactions db ++ [tx]
    /\ t_tree_type_id tx = tid
    /\ t_quantity_sold tx = q
    /\ t_unit_sale_price_at_time_of_sale tx = tt_base_unit_price tt
    /\ t_total_amount tx
       = price_times (t_unit_sale_price_at_time_of_sale tx)
                     (t_quantity_sold tx)
    /\ same_lots (stock db) (stock db')
    /\ (forall s, In s (stock db) ->
          quantity_of (s_id s) (stock db') <= s_quantity s)
    /\ (forall s, In s (stock db) ->
          quantity_of (s_id s) (stock db') <> s_quantity s ->
          s_tree_type_id s = tid /\ 0 <= quantity_of (s_id s) (stock db'))
    /\ sum (map (fun s => s_quantity s - quantity_of (s_id s) (stock db'))
                (stock db)) = q
    /\ StronglySorted (fun a b => s_date_added a <= s_date_added b)
         (available_stock_entries tid db)
    /\ (forall l1 b l2,
          available_stock_entries tid db = l1 ++ b :: l2 ->
          quantity_of (s_id b) (stock db') < s_quantity b ->
          forall a, In a l1 -> quantity_of (s_id a) (stock db') = 0)
    /\ (forall a b,
          In a (stock db) -> In b (stock db) ->
          s_tree_type_id a = tid -> 0 < s_quantity a ->
          s_date_added a < s_date_added b ->
          quantity_of (s_id b) (stock db') < s_quantity b ->
          quantity_of (s_id a) (stock db') = 0).
Proof.
  intros Hk Htt Hq0 Hq.
  pose proof (sale_loop_spec tid q db Hk (conj Hq0 Hq)) as Hloop.
  cbv zeta in Hloop. destruct Hloop as (I1 & I2 & I3 & I4 & I5).
  set (entries := map s_id (available_stock_entries tid db)) in *.
  set (tbl' := sell_loop entries q (stock db)) in *.
  assert (Hids : map s_id (stock db) = map s_id tbl')
    by exact (same_lots_ids _ _ I1).
  assert (Hk' : NoDup (map s_id tbl')).
  { unfold stock_wf in Hk. now rewrite Hids in Hk. }
  assert (Hentry : forall s, In s (stock db) -> In (s_id s) entries ->
                             In s (available_stock_entries tid db)).
  { intros s Hs Hin. apply in_map_iff in Hin.
    destruct Hin as [s' [Hid Hs']].
    assert (Heq : s' = s); [|now rewrite <- Heq].
    apply (same_id_same_lot db); try assumption.
    apply available_In in Hs'. tauto. }
  assert (Hle : forall s, In s (stock db) ->
                  quantity_of (s_id s) tbl' <= s_quantity s).
  { intros s Hs.
    rewrite <- (quantity_of_unique (stock db) s Hk Hs).
    destruct (in_dec Z.eq_dec (s_id s) entries) as [Hin|Hin].
    - apply I3, Hin.
    - rewrite I2 by exact Hin. lia. }
  assert (Htouched : forall s, In s (stock db) ->
                       quantity_of (s_id s) tbl' <> s_quantity s ->
                       In (s_id s) entries).
  { intros s Hs Hne.
    destruct (in_dec Z.eq_dec (s_id s) entries) as [Hin|Hin]; [exact Hin|].
    exfalso. apply Hne. rewrite I2 by exact Hin.
    now apply quantity_of_unique. }
  assert (Hfifo : forall l1 b l2,
            available_stock_entries tid db = l1 ++ b :: l2 ->
            quantity_of (s_id b) tbl' < s_quantity b ->
            forall a, In a l1 -> quantity_of (s_id a) tbl' = 0).
  { intros l1 b l2 Heq Hlt a Ha.
    assert (Hb : In b (stock db)).
    { assert (In b (available_stock_entries tid db))
        by (rewrite Heq; apply in_elt).
      apply available_In in H. tauto. }
    apply (I5 (map s_id l1) (s_id b) (map s_id l2)).
    - unfold entries. rewrite Heq, map_app. reflexivity.
    - now rewrite (quantity_of_unique (stock db) b Hk Hb).
    - now apply in_map. }
  unfold record_sale. rewrite Htt. cbv zeta.
  fold (total_available tid db).
  replace (total_available tid db <? q) with false
    by (symmetry; apply Z.ltb_ge; exact Hq).
  eexists. eexists. split; [reflexivity|]. simpl.
  fold entries. fold tbl'.
  do 5 (split; [reflexivity|]).
  split; [exact I1|].
  split; [exact Hle|].
  split.
  { intros s Hs Hne. pose proof (Htouched s Hs Hne) as Hin.
    split.
    - apply (Hentry s Hs) in Hin. apply available_In in Hin. tauto.
    - apply I3, Hin. }
  split.
  { rewrite sum_map_sub. fold (total_quantity (stock db)).
    replace (map (fun s => quantity_of (s_id s) tbl') (stock db))
      with (map (fun i => quantity_of i tbl') (map s_id (stock db)))
      by (now rewrite map_map).
    rewrite Hids, (total_by_ids tbl' Hk'). exact I4. }
  split; [apply available_sorted|].
  split; [exact Hfifo|].
  intros a b Ha Hb Hta Hpa Hdate Hlt.
  assert (Hinb : In b (available_stock_entries tid db)).
  { apply (Hentry b Hb), (Htouched b Hb). lia. }
  assert (Hina : In a (available_stock_entries tid db))
    by (apply available_In; tauto).
  destruct (in_split _ _ Hinb) as (l1 & l2 & Heq).
  apply (Hfifo l1 b l2 Heq Hlt).
  apply (sorted_split_before s_date_added l1 l2 a b).
  - rewrite <- Heq. apply available_sorted.
  - now rewrite <- Heq.
  - exact Hdate.
Qed.

(** C2.  A sale for more than the available lots of the type hold is
    refused: [record_sale] returns [None] and the store -- every lot and
    the transaction table -- is the one it was given. *)
Theorem record_sale_insufficient_is_noop (now : datetime) (tid q : Z) db :
  total_available tid db < q ->
  record_sale price_times now tid q db = (None, db).
Proof.
  intros Hq. unfold record_sale.
  destruct (get_tree_type_by_id tid db); [|reflexivity].
  cbv zeta. fold (total_available tid db).
  apply Z.ltb_lt in Hq. now rewrite Hq.
Qed.

(** C9.  A sale for a tree-type id that is not in the store returns
    [None] (nothing is raised) and leaves the store as it was. *)
Theorem record_sale_unknown_type_is_noop (now : datetime) (tid q : Z) db :
  get_tree_type_by_id tid db = None ->
  record_sale price_times now tid q db = (None, db).
Proof.
  intros Hn. unfold record_sale. now rewrite Hn.
Qed.
End Ledger.

(** ** Transfers *)

Section MoveFacts.
Context {price : Type}.
Implicit Types (tbl : list (@Stock price)) (s : @Stock price).

Lemma with_own_quantity s : with_quantity (s_quantity s) s = s.
Proof. now destruct s. Qed.

Lemma next_id_above tbl i :
  In i (map s_id tbl) -> i < next_id s_id tbl.
Proof.
  unfold next_id.
  induction tbl as [|x tl IH]; cbn [map fold_right In]; [contradiction|].
  intros [<-|Hin]; [lia|]. specialize (IH Hin). lia.
Qed.

Lemma next_id_fresh tbl : ~ In (next_id s_id tbl) (map s_id tbl).
Proof. intros H. apply next_id_above in H. lia. Qed.

Lemma NoDup_ids_snoc tbl s :
  NoDup (map s_id tbl) -> ~ In (s_id s) (map s_id tbl) ->
  NoDup (map s_id (tbl ++ [s])).
Proof.
  intros Hk Hn. rewrite map_app. simpl.
  apply NoDup_app; [exact Hk | repeat constructor; auto |].
  intros i Hi [<-|[]]. contradiction.
Qed.

Lemma lookup_stock_app i tbl tbl' :
  lookup_stock i (tbl ++ tbl') =
  match lookup_stock i tbl with
  | Some s => Some s
  | None => lookup_stock i tbl'
  end.
Proof.
  unfold lookup_stock. induction tbl as [|x tl IH]; simpl; [reflexivity|].
  now destruct (s_id x =? i).
Qed.

Lemma total_of_type_app t tbl tbl' :
  total_of_type t (tbl ++ tbl') = total_of_type t tbl + total_of_type t tbl'.
Proof.
  unfold total_of_type, total_quantity.
  now rewrite filter_app, map_app, sum_app.
Qed.

Lemma total_of_type_update t sid f tbl s :
  quantity_only f ->
  NoDup (map s_id tbl) -> lookup_stock sid tbl = Some s ->
  total_of_type t (update_row sid f tbl) =
  total_of_type t tbl
  + (if s_tree_type_id s =? t then s_quantity (f s) - s_quantity s else 0).
Proof.
  intros Hf Hk Hl. unfold total_of_type.
  apply (total_filter_update_row (fun s => s_tree_type_id s =? t));
    try assumption.
  intros x. now rewrite (quantity_only_type f x Hf).
Qed.

Lemma find_lot_at_Some t l tbl s :
  find_lot_at t l tbl = Some s ->
  In s tbl /\ s_tree_type_id s = t /\ s_location_id s = l.
Proof.
  unfold find_lot_at. intros H. apply find_some in H.
  rewrite andb_true_iff, !Z.eqb_eq in H. tauto.
Qed.


(** Crediting and then debiting the same row by the same amount leaves
    the table as it was. *)
Lemma add_quantity_cancel sid d tbl :
  add_quantity sid (- d) (add_quantity sid d tbl) = tbl.
Proof.
  unfold add_quantity, update_row. rewrite map_map.
  rewrite <- (map_id tbl) at 2. apply map_ext. intros s.
  destruct (s_id s =? sid) eqn:E; simpl; [|now rewrite E].
  rewrite E. unfold with_quantity; simpl. destruct s; simpl. f_equal. lia.
Qed.
End MoveFacts.

Section MoveCases.
Context {price : Type}.
Implicit Types (db : @DB price) (s src e : @Stock price).

Lemma set_stock_same db : set_stock db (stock db) = db.
Proof. now destruct db. Qed.

Lemma get_stock_by_id_In sid db s :
  get_stock_by_id sid db = Some s -> In s (stock db) /\ s_id s = sid.
Proof. apply lookup_stock_In. Qed.

(** The guard of [move_stock_quantity]. *)
Lemma move_guard_fails (now : datetime) (from to q : Z) db :
  get_stock_by_id from db = None
  \/ (exists src, get_stock_by_id from db = Some src /\ s_quantity src < q) ->
  move_stock_quantity now from to q db = (None, db).
Proof.
  unfold move_stock_quantity. intros [Hn | [src [Hsrc Hlt]]].
  - now rewrite Hn.
  - rewrite Hsrc. apply Z.ltb_lt in Hlt. now rewrite Hlt.
Qed.

(** The three ways a transfer that passes the guard can go. *)

(** The first lot of the source's type at the destination is the source
    lot itself: credit and debit land on the same row. *)
Lemma move_onto_itself (now : datetime) (from to q : Z) db src e :
  stock_wf db ->
  get_stock_by_id from db = Some src ->
  q <= s_quantity src ->
  find_lot_at (s_tree_type_id src) to (stock db) = Some e ->
  s_id e = from ->
  e = src /\
  move_stock_quantity now from to q db = (Some (src, src), db).
Proof.
  intros Hk Hsrc Hq He Hid.
  destruct (get_stock_by_id_In _ _ _ Hsrc) as [Hin Hfrom].
  destruct (find_lot_at_Some _ _ _ _ He) as (Hine & _ & _).
  assert (e = src)
    by (apply (same_id_same_lot db); [assumption..|congruence]).
  subst e. split; [reflexivity|].
  unfold move_stock_quantity. rewrite Hsrc.
  replace (s_quantity src <? q) with false
    by (symmetry; apply Z.ltb_ge; exact Hq).
  rewrite He. cbv beta iota zeta.
  rewrite Hid, add_quantity_cancel, set_stock_same.
  unfold refresh. rewrite Hfrom.
  unfold get_stock_by_id in Hsrc. now rewrite Hsrc.
Qed.

(** Another lot of the source's type is already at the destination. *)
Lemma move_onto_existing (now : datetime) (from to q : Z) db src e :
  stock_wf db ->
  get_stock_by_id from db = Some src ->
  q <= s_quantity src ->
  find_lot_at (s_tree_type_id src) to (stock db) = Some e ->
  s_id e <> from ->
  move_stock_quantity now from to q db =
  (Some (with_quantity (s_quantity src - q) src,
         with_quantity (s_quantity e + q) e),
   set_stock db
     (add_quantity from (- q) (add_quantity (s_id e) q (stock db)))).
Proof.
  intros Hk Hsrc Hq He Hne.
  destruct (get_stock_by_id_In _ _ _ Hsrc) as [Hin Hfrom].
  destruct (find_lot_at_Some _ _ _ _ He) as (Hine & _ & _).
  unfold move_stock_quantity. rewrite Hsrc.
  replace (s_quantity src <? q) with false
    by (symmetry; apply Z.ltb_ge; exact Hq).
  rewrite He. cbv beta iota zeta.
  unfold refresh, add_quantity.
  rewrite !lookup_update_row by apply add_quantity_only.
  rewrite Hfrom, Z.eqb_refl.
  replace (from =? s_id e) with false
    by (symmetry; apply Z.eqb_neq; congruence).
  replace (s_id e =? from) with false
    by (symmetry; apply Z.eqb_neq; congruence).
  rewrite Z.eqb_refl.
  unfold get_stock_by_id in Hsrc. rewrite Hsrc.
  rewrite (lookup_stock_unique _ e Hk Hine). simpl.
  reflexivity.
Qed.

(** No lot of the source's type is at the destination: a new one is
    inserted. *)
Lemma move_onto_new (now : datetime) (from to q : Z) db src :
  stock_wf db ->
  get_stock_by_id from db = Some src ->
  q <= s_quantity src ->
  find_lot_at (s_tree_type_id src) to (stock db) = None ->
  let n := {| s_id := next_id s_id (stock db);
              s_tree_type_id := s_tree_type_id src;
              s_location_id := to;
              s_quantity := q;
              s_date_added := now;
              s_cost_per_seedling := s_cost_per_seedling src |} in
  move_stock_quantity now from to q db =
  (Some (with_quantity (s_quantity src - q) src, n),
   set_stock db (add_quantity from (- q) (stock db) ++ [n])).
Proof.
  intros Hk Hsrc Hq He n.
  destruct (get_stock_by_id_In _ _ _ Hsrc) as [Hin Hfrom].
  assert (Hlt : from < next_id s_id (stock db)).
  { apply next_id_above. rewrite <- Hfrom. now apply in_map. }
  unfold move_stock_quantity. rewrite Hsrc.
  replace (s_quantity src <? q) with false
    by (symmetry; apply Z.ltb_ge; exact Hq).
  rewrite He. cbv beta iota zeta. fold n.
  assert (Htbl : add_quantity from (- q) (stock db ++ [n])
                 = add_quantity from (- q) (stock db) ++ [n]).
  { unfold add_quantity, update_row. rewrite map_app. simpl.
    replace (next_id s_id (stock db) =? from) with false
      by (symmetry; apply Z.eqb_neq; lia).
    reflexivity. }
  rewrite Htbl. unfold refresh. rewrite !lookup_stock_app.
  unfold add_quantity.
  rewrite !lookup_update_row by apply add_quantity_only.
  rewrite Hfrom, Z.eqb_refl.
  unfold get_stock_by_id in Hsrc. rewrite Hsrc. simpl option_map.
  replace (s_id n =? from) with false
    by (symmetry; apply Z.eqb_neq; simpl; lia).
  destruct (lookup_stock (s_id n) (stock db)) as [x|] eqn:Ex.
  { apply lookup_stock_In in Ex. destruct Ex as [Hx Hidx].
    exfalso. apply (next_id_fresh (stock db)).
    change (next_id s_id (stock db)) with (s_id n).
    rewrite <- Hidx. now apply in_map. }
  unfold lookup_stock. simpl find. rewrite Z.eqb_refl.
  reflexivity.
Qed.
End MoveCases.

Section Transfers.
Context {price : Type}.
Implicit Types (db : @DB price) (s src e : @Stock price).

Lemma lookup_add_quantity (i sid d : Z) (tbl : list (@Stock price)) :
  lookup_stock i (add_quantity sid d tbl) =
  if i =? sid
  then option_map (fun s => with_quantity (s_quantity s + d) s)
                  (lookup_stock i tbl)
  else lookup_stock i tbl.
Proof. apply lookup_update_row, add_quantity_only. Qed.

Lemma lookup_fresh_None (tbl : list (@Stock price)) :
  lookup_stock (next_id s_id tbl) tbl = None.
Proof.
  destruct (lookup_stock (next_id s_id tbl) tbl) as [x|] eqn:Ex;
    [|reflexivity].
  apply lookup_stock_In in Ex. destruct Ex as [Hx Hid].
  exfalso. apply (next_id_fresh tbl). rewrite <- Hid. now apply in_map.
Qed.

(** What a transfer that passes the guard does, told by the lot it
    returns as destination. *)
Lemma move_stock_outcome
    (now : datetime) (from to q : Z) db src :
  stock_wf db ->
  get_stock_by_id from db = Some src ->
  q <= s_quantity src ->
  exists src' dst' db',
    move_stock_quantity now from to q db = (Some (src', dst'), db')
    /\ (forall t, total_of_type t (stock db') = total_of_type t (stock db))
    /\ get_stock_by_id from db' = Some src'
    /\ get_stock_by_id (s_id dst') db' = Some dst'
    /\ s_tree_type_id dst' = s_tree_type_id src
    /\ s_location_id dst' = to
    /\ (s_id dst' <> from ->
          s_quantity src' = s_quantity src - q
          /\ s_quantity dst' = quantity_of (s_id dst') (stock db) + q)
    /\ (s_id dst' = from -> s_quantity src' = s_quantity src)
    /\ (to <> s_location_id src -> s_id dst' <> from)
    /\ (forall i, i <> from -> i <> s_id dst' ->
          lookup_stock i (stock db') = lookup_stock i (stock db))
    /\ (forall e, find_lot_at (s_tree_type_id src) to (stock db) = Some e ->
          s_id dst' = s_id e)
    /\ (find_lot_at (s_tree_type_id src) to (stock db) = None ->
        ~ In (s_id dst') (map s_id (stock db)))
    /\ (s_id dst' = from -> db' = db).
Proof.
  intros Hk Hsrc Hq.
  destruct (get_stock_by_id_In _ _ _ Hsrc) as [Hin Hfrom].
  pose proof Hsrc as Hl. unfold get_stock_by_id in Hl.
  destruct (find_lot_at (s_tree_type_id src) to (stock db)) as [e|] eqn:He.
  - destruct (find_lot_at_Some _ _ _ _ He) as (Hine & Hte & Hle).
    destruct (Z.eq_dec (s_id e) from) as [Hid|Hid].
    + (* the source is its own destination *)
      destruct (move_onto_itself now from to q db src e Hk Hsrc Hq He Hid)
        as [-> Hmove].
      exists src, src, db. rewrite Hfrom.
      split; [exact Hmove|].
      split; [reflexivity|].
      repeat (split; [assumption|]).
      split; [intros H; now contradiction H|].
      split; [reflexivity|].
      split; [intros H; now contradiction H|].
      split; [reflexivity|].
      split; [intros e0 H; injection H as <-; now symmetry|].
      split; [discriminate|].
      reflexivity.
    + (* another lot receives the stock *)
      rewrite (move_onto_existing now from to q db src e Hk Hsrc Hq He Hid).
      do 3 eexists. split; [reflexivity|]. simpl.
      assert (Hk1 : NoDup (map s_id (add_quantity (s_id e) q (stock db))))
        by (unfold add_quantity;
            now rewrite update_row_ids by apply add_quantity_only).
      assert (Hl1 : lookup_stock from (add_quantity (s_id e) q (stock db))
                    = Some src).
      { rewrite lookup_add_quantity.
        replace (from =? s_id e) with false
          by (symmetry; apply Z.eqb_neq; congruence).
        exact Hl. }
      split.
      { intros t. unfold add_quantity at 1.
        rewrite (total_of_type_update t from _ _ src
                   (add_quantity_only _) Hk1 Hl1).
        unfold add_quantity.
        rewrite (total_of_type_update t (s_id e) _ _ e
                   (add_quantity_only _) Hk
                   (lookup_stock_unique _ e Hk Hine)).
        rewrite Hte. simpl. destruct (s_tree_type_id src =? t); lia. }
      unfold get_stock_by_id. simpl. rewrite !lookup_add_quantity.
      rewrite Z.eqb_refl.
      replace (from =? s_id e) with false
        by (symmetry; apply Z.eqb_neq; congruence).
      replace (s_id e =? from) with false
        by (symmetry; apply Z.eqb_neq; congruence).
      rewrite Z.eqb_refl, Hl, (lookup_stock_unique _ e Hk Hine).
      split; [simpl; f_equal; f_equal; lia|].
      split; [reflexivity|].
      split; [exact Hte|]. split; [exact Hle|].
      split.
      { intros _. split; [reflexivity|].
        now rewrite (quantity_of_unique _ e Hk Hine). }
      split; [intros H; now contradiction Hid|].
      split; [intros _; exact Hid|].
      split.
      { intros i Hi1 Hi2. rewrite !lookup_add_quantity.
        apply Z.eqb_neq in Hi1, Hi2. now rewrite Hi1, Hi2. }
      split; [intros e0 H; injection H as <-; reflexivity|].
      split; [discriminate|].
      intros H. now contradiction Hid.
  - (* a new lot is created at the destination *)
    pose proof (move_onto_new now from to q db src Hk Hsrc Hq He) as Hmove.
    cbv zeta in Hmove. rewrite Hmove. clear Hmove.
    assert (Hlt : from < next_id s_id (stock db)).
    { apply next_id_above. rewrite <- Hfrom. now apply in_map. }
    do 3 eexists. split; [reflexivity|]. simpl.
    split.
    { intros t. rewrite total_of_type_app. unfold add_quantity.
      rewrite (total_of_type_update t from _ _ src
                 (add_quantity_only _) Hk Hl).
      unfold total_of_type, total_quantity. simpl.
      destruct (s_tree_type_id src =? t); simpl; lia. }
    unfold get_stock_by_id. simpl. rewrite !lookup_stock_app.
    rewrite !lookup_add_quantity, Z.eqb_refl, Hl.
    replace (next_id s_id (stock db) =? from) with false
      by (symmetry; apply Z.eqb_neq; lia).
    rewrite lookup_fresh_None.
    split; [simpl; f_equal; f_equal; lia|].
    split; [unfold lookup_stock; simpl; now rewrite Z.eqb_refl|].
    split; [reflexivity|]. split; [reflexivity|].
    split.
    { intros _. split; [reflexivity|].
      unfold quantity_of. now rewrite lookup_fresh_None. }
    split; [intros H; lia|].
    split; [intros _; lia|].
    split.
    { intros i Hi1 Hi2. rewrite lookup_stock_app, lookup_add_quantity.
      apply Z.eqb_neq in Hi1. rewrite Hi1.
      destruct (lookup_stock i (stock db)); [reflexivity|].
      unfold lookup_stock. simpl.
      apply Z.eqb_neq in Hi2. rewrite Z.eqb_sym in Hi2. now rewrite Hi2. }
    split; [discriminate|].
    split; [intros _; apply next_id_fresh|].
    intros H. lia.
Qed.

(** [find_lot_at] returns the first lot of the type at the location, and
    only that. *)
Lemma find_lot_at_first (t l : Z) (tbl : list (@Stock price)) s :
  find_lot_at t l tbl = Some s <-> first_lot_at t l tbl s.
Proof.
  unfold find_lot_at, first_lot_at. split.
  - induction tbl as [|x tl IH]; simpl; [discriminate|].
    destruct ((s_tree_type_id x =? t) && (s_location_id x =? l)) eqn:E.
    + intros H. injection H as ->.
      apply andb_true_iff in E. rewrite !Z.eqb_eq in E.
      exists [], tl. repeat split; tauto.
    + intros H. destruct (IH H) as (before & after & -> & Ht & Hl & Hb).
      exists (x :: before), after. repeat split; try assumption.
      intros y [<-|Hy]; [|now apply Hb].
      intros [Hty Hly]. rewrite Hty, Hly, !Z.eqb_refl in E. discriminate.
  - intros (before & after & -> & Ht & Hl & Hb).
    induction before as [|x before IH]; simpl.
    + now rewrite Ht, Hl, !Z.eqb_refl.
    + destruct ((s_tree_type_id x =? t) && (s_location_id x =? l)) eqn:E.
      * exfalso. apply (Hb x (or_introl eq_refl)).
        apply andb_true_iff in E. now rewrite !Z.eqb_eq in E.
      * apply IH. intros y Hy. apply Hb. now right.
Qed.

(** C3, as the code has it.  A transfer that passes the guard (the source
    lot exists and holds at least the quantity to move) leaves the total
    of every tree type unchanged and touches no lot besides the source and
    the destination lot.  The destination lot is the first lot, in table
    order, of the source's tree type at the destination location, or a
    newly created lot when no lot of the type is there.  Unless the source
    lot is itself that first lot -- which it cannot be when the destination
    location differs from the source lot's location -- the source lot loses
    exactly the moved quantity and the destination lot (a new lot counting
    as holding 0 before) gains exactly the moved quantity.  When the source
    lot is itself the first lot of its type at the destination location,
    credit and debit cancel on that one row: the transfer succeeds and the
    store is unchanged. *)
Theorem move_stock_conserves_totals
    (now : datetime) (from to q : Z) db src :
  stock_wf db ->
  get_stock_by_id from db = Some src ->
  q <= s_quantity src ->
  exists src' dst' db',
    move_stock_quantity now from to q db = (Some (src', dst'), db')
    /\ (forall t, total_of_type t (stock db') = total_of_type t (stock db))
    /\ get_stock_by_id from db' = Some src'
    /\ get_stock_by_id (s_id dst') db' = Some dst'
    /\ s_tree_type_id dst' = s_tree_type_id src
    /\ s_location_id dst' = to
    /\ (forall i, i <> from -> i <> s_id dst' ->
          lookup_stock i (stock db') = lookup_stock i (stock db))
    /\ (forall e, first_lot_at (s_tree_type_id src) to (stock db) e ->
          s_id dst' = s_id e)
    /\ ((forall s, In s (stock db) ->
            ~ (s_tree_type_id s = s_tree_type_id src
               /\ s_location_id s = to)) ->
        ~ In (s_id dst') (map s_id (stock db)))
    /\ (first_lot_at (s_tree_type_id src) to (stock db) src ->
          s_id dst' = from
          /\ s_quantity src' = s_quantity src
          /\ db' = db)
    /\ (~ first_lot_at (s_tree_type_id src) to (stock db) src ->
          s_id dst' <> from
          /\ s_quantity src' = s_quantity src - q
          /\ s_quantity dst' = quantity_of (s_id dst') (stock db) + q)
    /\ (to <> s_location_id src ->
          ~ first_lot_at (s_tree_type_id src) to (stock db) src).
Proof.
  intros Hk Hsrc Hq.
  destruct (get_stock_by_id_In _ _ _ Hsrc) as [Hin Hfrom].
  destruct (move_stock_outcome now from to q db src Hk Hsrc Hq)
    as (src' & dst' & db' & Hmove & Htot & Hs & Hd & Hty & Hloc
        & Hother & Hself & _ & Hrest & Hfound & Hnone & Hsame).
  exists src', dst', db'.
  do 6 (split; [assumption|]).
  split; [exact Hrest|].
  split; [intros e He; apply Hfound, find_lot_at_first, He|].
  split.
  { intros Hno. apply Hnone.
    destruct (find_lot_at (s_tree_type_id src) to (stock db)) as [e|] eqn:He;
      [|reflexivity].
    destruct (find_lot_at_Some _ _ _ _ He) as (Hine & Hte & Hle).
    exfalso. apply (Hno e Hine). now split. }
  split.
  { intros Hfirst. apply find_lot_at_first in Hfirst.
    assert (Hid : s_id dst' = from)
      by (rewrite (Hfound src Hfirst); exact Hfrom).
    split; [exact Hid|]. split; [now apply Hself | now apply Hsame]. }
  split.
  { intros Hnot.
    assert (Hid : s_id dst' <> from).
    { intros Hid. apply Hnot, find_lot_at_first.
      destruct (find_lot_at (s_tree_type_id src) to (stock db))
        as [e|] eqn:He.
      - destruct (find_lot_at_Some _ _ _ _ He) as (Hine & _ & _).
        f_equal. apply (same_id_same_lot db); try assumption.
        rewrite <- (Hfound e eq_refl). congruence.
      - exfalso. apply (Hnone eq_refl). rewrite Hid, <- Hfrom.
        now apply in_map. }
    split; [exact Hid|]. now apply Hother. }
  intros Hto (before & after & _ & _ & Hl & _). now apply Hto.
Qed.
End Transfers.

Section TransferOutcomes.
Context {price : Type}.
Implicit Types (db : @DB price) (s src e : @Stock price).

(** C4.  A transfer whose source lot id is not in the store, or whose
    source lot holds less than the quantity to move, returns [None] and
    leaves the store -- every lot -- as it was. *)
Theorem move_stock_refused_is_noop (now : datetime) (from to q : Z) db :
  get_stock_by_id from db = None
  \/ (exists src, get_stock_by_id from db = Some src /\ s_quantity src < q) ->
  move_stock_quantity now from to q db = (None, db).
Proof. apply move_guard_fails. Qed.


(** C6.  [add_stock_entry] appends exactly one row to the lot table -- a
    lot with a fresh id holding the given tree type, location, quantity
    and cost -- and returns it; every row that was there is still there
    unchanged, the other tables are untouched, and the total of that tree
    type at that location grows by exactly the given quantity. *)
Theorem add_stock_entry_appends_one_lot
    (now : datetime) (tid lid q : Z) (cost : price) db :
  exists row db',
    add_stock_entry now tid lid q cost db = (row, db')
    /\ stock db' = stock db ++ [row]
    /\ ~ In (s_id row) (map s_id (stock db))
    /\ s_tree_type_id row = tid /\ s_location_id row = lid
    /\ s_quantity row = q /\ s_cost_per_seedling row = cost
    /\ (forall i, In i (map s_id (stock db)) ->
          lookup_stock i (stock db') = lookup_stock i (stock db))
    /\ tree_types db' = tree_types db
    /\ transactions db' = transactions db
    /\ total_at tid lid (stock db') = total_at tid lid (stock db) + q.
Proof.
  unfold add_stock_entry. do 2 eexists. split; [reflexivity|]. simpl.
  split; [reflexivity|].
  split; [apply next_id_fresh|].
  do 4 (split; [reflexivity|]).
  split.
  { intros i Hi. rewrite lookup_stock_app.
    destruct (lookup_stock_found _ _ Hi) as [s ->]. reflexivity. }
  do 2 (split; [reflexivity|]).
  unfold total_at, total_quantity.
  rewrite filter_app, map_app, sum_app. simpl.
  rewrite !Z.eqb_refl. simpl. lia.
Qed.
End TransferOutcomes.

(** ** Invariants of the ledger *)

Section Invariants.
Context {price : Type}.
Variable price_times : price -> Z -> price.
Implicit Types (db : @DB price) (s : @Stock price)
               (tbl : list (@Stock price)).

Lemma lots_persist_same tbl tbl' : same_lots tbl tbl' -> lots_persist tbl tbl'.
Proof.
  intros H. exists []. rewrite app_nil_r. symmetry. exact H.
Qed.

Lemma lots_persist_refl tbl : lots_persist tbl tbl.
Proof. now apply lots_persist_same. Qed.

Lemma lots_persist_trans tbl1 tbl2 tbl3 :
  lots_persist tbl1 tbl2 -> lots_persist tbl2 tbl3 -> lots_persist tbl1 tbl3.
Proof.
  intros [a1 H1] [a2 H2]. exists (a1 ++ a2).
  now rewrite H2, H1, app_assoc.
Qed.

Lemma lots_persist_snoc tbl tbl' s :
  same_lots tbl tbl' -> lots_persist tbl (tbl' ++ [s]).
Proof.
  intros H. exists [with_quantity 0 s]. rewrite map_app. simpl.
  now rewrite H.
Qed.

Lemma lots_persist_ids tbl tbl' :
  lots_persist tbl tbl' ->
  exists added, map s_id tbl' = map s_id tbl ++ added.
Proof.
  intros [a H]. exists (map s_id a).
  apply (f_equal (map s_id)) in H.
  rewrite map_app, !map_map in H. exact H.
Qed.

Lemma nonneg_update_row sid f tbl :
  Forall (fun s => 0 <= s_quantity s) tbl ->
  (forall s, In s tbl -> s_id s = sid -> 0 <= s_quantity (f s)) ->
  Forall (fun s => 0 <= s_quantity s) (update_row sid f tbl).
Proof.
  intros Hall Hf. unfold update_row. rewrite Forall_forall in *.
  intros s' Hs'. apply in_map_iff in Hs'. destruct Hs' as [s [<- Hs]].
  destruct (s_id s =? sid) eqn:E.
  - apply Z.eqb_eq in E. now apply Hf.
  - now apply Hall.
Qed.

Lemma add_quantity_wf sid d tbl :
  NoDup (map s_id tbl) -> NoDup (map s_id (add_quantity sid d tbl)).
Proof.
  intros H. unfold add_quantity.
  now rewrite update_row_ids by apply add_quantity_only.
Qed.

Lemma add_quantity_nonneg sid d tbl s0 :
  NoDup (map s_id tbl) -> lookup_stock sid tbl = Some s0 ->
  0 <= s_quantity s0 + d ->
  Forall (fun s => 0 <= s_quantity s) tbl ->
  Forall (fun s => 0 <= s_quantity s) (add_quantity sid d tbl).
Proof.
  intros Hk Hl Hd Hall. apply nonneg_update_row; [exact Hall|].
  intros s Hs Hid. simpl.
  pose proof (lookup_stock_unique tbl s Hk Hs) as Hu.
  rewrite Hid, Hl in Hu. injection Hu as <-. exact Hd.
Qed.

Lemma add_stock_invariant now t l q c db :
  stock_wf db -> stock_nonneg db -> 0 < q ->
  let db' := snd (add_stock_entry now t l q c db) in
  stock_wf db' /\ stock_nonneg db' /\ lots_persist (stock db) (stock db').
Proof.
  intros Hk Hn Hq. unfold add_stock_entry, stock_wf, stock_nonneg. simpl.
  split; [apply NoDup_ids_snoc; [exact Hk | apply next_id_fresh]|].
  split.
  - apply Forall_app. split; [exact Hn|]. repeat constructor. simpl. lia.
  - now apply lots_persist_snoc.
Qed.

Lemma update_stock_invariant i q db :
  stock_wf db -> stock_nonneg db -> 0 <= q ->
  let db' := snd (update_stock_quantity i q db) in
  stock_wf db' /\ stock_nonneg db' /\ lots_persist (stock db) (stock db').
Proof.
  intros Hk Hn Hq. unfold update_stock_quantity.
  destruct (get_stock_by_id i db) as [s0|]; simpl.
  - unfold stock_wf, stock_nonneg, set_quantity. simpl.
    split; [now rewrite update_row_ids by apply with_quantity_only|].
    split.
    + apply nonneg_update_row; [exact Hn|]. intros; simpl; lia.
    + apply lots_persist_same, same_lots_update_row, with_quantity_only.
  - repeat split; try assumption. apply lots_persist_refl.
Qed.

Lemma move_stock_invariant now from to q db :
  stock_wf db -> stock_nonneg db -> 0 < q ->
  let db' := snd (move_stock_quantity now from to q db) in
  stock_wf db' /\ stock_nonneg db' /\ lots_persist (stock db) (stock db').
Proof.
  intros Hk Hn Hq0. cbv zeta.
  assert (Hsame : stock_wf db /\ stock_nonneg db
                  /\ lots_persist (stock db) (stock db))
    by (repeat split; try assumption; apply lots_persist_refl).
  destruct (get_stock_by_id from db) as [src|] eqn:Hsrc;
    [|rewrite move_guard_fails by (now left); exact Hsame].
  destruct (Z.lt_ge_cases (s_quantity src) q) as [Hlt|Hq];
    [rewrite move_guard_fails
       by (right; exists src; now split); exact Hsame|].
  destruct (get_stock_by_id_In _ _ _ Hsrc) as [Hin Hfrom].
  pose proof Hsrc as Hl. unfold get_stock_by_id in Hl.
  destruct (find_lot_at (s_tree_type_id src) to (stock db)) as [e|] eqn:He.
  - destruct (find_lot_at_Some _ _ _ _ He) as (Hine & _ & _).
    destruct (Z.eq_dec (s_id e) from) as [Hid|Hid].
    + destruct (move_onto_itself now from to q db src e Hk Hsrc Hq He Hid)
        as [_ ->]. exact Hsame.
    + rewrite (move_onto_existing now from to q db src e Hk Hsrc Hq He Hid).
      unfold stock_wf, stock_nonneg. simpl.
      pose proof (lookup_stock_unique _ e Hk Hine) as Hle.
      assert (Hl1 : lookup_stock from (add_quantity (s_id e) q (stock db))
                    = Some src).
      { rewrite lookup_add_quantity.
        replace (from =? s_id e) with false
          by (symmetry; apply Z.eqb_neq; congruence).
        exact Hl. }
      split; [now do 2 apply add_quantity_wf|].
      split.
      * apply (add_quantity_nonneg from (- q) _ src);
          [now apply add_quantity_wf | exact Hl1 | lia |].
        apply (add_quantity_nonneg (s_id e) q _ e); try assumption.
        unfold stock_nonneg in Hn. rewrite Forall_forall in Hn.
        specialize (Hn e Hine). lia.
      * apply lots_persist_same. unfold same_lots, add_quantity.
        rewrite <- !same_lots_update_row by apply add_quantity_only.
        reflexivity.
  - pose proof (move_onto_new now from to q db src Hk Hsrc Hq He) as Hmove.
    cbv zeta in Hmove. rewrite Hmove. clear Hmove.
    unfold stock_wf, stock_nonneg. simpl.
    split.
    { apply NoDup_ids_snoc; [now apply add_quantity_wf|]. simpl.
      unfold add_quantity.
      rewrite update_row_ids by apply add_quantity_only.
      apply next_id_fresh. }
    split.
    + apply Forall_app. split.
      * apply (add_quantity_nonneg from (- q) _ src); try assumption. lia.
      * repeat constructor. simpl. lia.
    + apply lots_persist_snoc, same_lots_update_row, add_quantity_only.
Qed.

Lemma record_sale_invariant now t q db :
  stock_wf db -> stock_nonneg db ->
  let db' := snd (record_sale price_times now t q db) in
  stock_wf db' /\ stock_nonneg db' /\ lots_persist (stock db) (stock db').
Proof.
  intros Hk Hn. cbv zeta.
  assert (Hsame : stock_wf db /\ stock_nonneg db
                  /\ lots_persist (stock db) (stock db))
    by (repeat split; try assumption; apply lots_persist_refl).
  unfold record_sale.
  destruct (get_tree_type_by_id t db); [|exact Hsame].
  cbv zeta.
  destruct (sum (map s_quantity (available_stock_entries t db)) <? q);
    [exact Hsame|].
  unfold stock_wf, stock_nonneg. simpl.
  pose proof (sell_loop_same_lots
                (map s_id (available_stock_entries t db)) q (stock db))
    as Hs.
  split; [rewrite <- (same_lots_ids _ _ Hs); exact Hk|].
  split; [now apply sell_loop_nonneg|].
  now apply lots_persist_same.
Qed.

Lemma exec_invariant op db :
  stock_wf db -> stock_nonneg db -> op_pre op ->
  stock_wf (exec price_times op db)
  /\ stock_nonneg (exec price_times op db)
  /\ lots_persist (stock db) (stock (exec price_times op db)).
Proof.
  intros Hk Hn Hpre. destruct op; simpl in *.
  - now apply add_stock_invariant.
  - now apply move_stock_invariant.
  - now apply record_sale_invariant.
  - now apply update_stock_invariant.
Qed.

(** C7.  From a store whose lots have distinct ids and non-negative
    quantities, any run of ledger commands -- add, move and sale with a
    positive quantity, quantity update with a quantity >= 0 -- ends in a
    store whose lots again have distinct ids and non-negative quantities,
    and in which every lot of the starting store is still a row, in its
    place and the same but for its quantity: no command removes a lot,
    whether or not its quantity has reached zero. *)
Theorem quantities_stay_nonneg_and_lots_persist
    (ops : list (@ledger_op price)) db :
  stock_wf db ->
  stock_nonneg db ->
  Forall op_pre ops ->
  stock_nonneg (run price_times ops db)
  /\ stock_wf (run price_times ops db)
  /\ lots_persist (stock db) (stock (run price_times ops db))
  /\ (forall s, In s (stock db) ->
        exists s', In s' (stock (run price_times ops db))
                   /\ s' = with_quantity (s_quantity s') s).
Proof.
  intros Hk Hn Hops.
  assert (H : stock_nonneg (run price_times ops db)
              /\ stock_wf (run price_times ops db)
              /\ lots_persist (stock db) (stock (run price_times ops db))).
  { revert db Hk Hn. unfold run.
    induction Hops as [|op ops Hpre Hops IH]; intros db Hk Hn; simpl.
    - repeat split; try assumption. apply lots_persist_refl.
    - destruct (exec_invariant op db Hk Hn Hpre) as (Hk1 & Hn1 & Hp1).
      destruct (IH _ Hk1 Hn1) as (Hn2 & Hk2 & Hp2).
      repeat split; try assumption.
      eapply lots_persist_trans; eassumption. }
  destruct H as (H1 & H2 & H3). repeat split; try assumption.
  intros s Hs. destruct H3 as [added Hadd].
  assert (Hin : In (with_quantity 0 s)
                   (map (with_quantity 0)
                        (stock (run price_times ops db)))).
  { rewrite Hadd. apply in_or_app. left. now apply in_map. }
  apply in_map_iff in Hin. destruct Hin as [s' [Heq Hs']].
  exists s'. split; [exact Hs'|].
  destruct s, s'. unfold with_quantity in *. simpl in *.
  injection Heq as -> -> -> -> ->. reflexivity.
Qed.
End Invariants.

(** ** Filtered reads *)

Section Reads.
Context {price : Type}.
Implicit Types (db : @DB price) (s : @Stock price)
               (t : @Transaction price).

Lemma filter_all {X : Type} (l : list X) : filter (fun _ => true) l = l.
Proof. induction l; simpl; congruence. Qed.

Lemma filter_twice {X : Type} (f g : X -> bool) (l : list X) :
  filter f (filter g l) = filter (fun x => g x && f x) l.
Proof.
  induction l as [|x l IH]; simpl; [reflexivity|].
  destruct (g x); simpl; [destruct (f x)|]; now rewrite IH.
Qed.

Lemma date_plus_one (d : date) :
  valid_date d -> d < date_max -> date_plus_days d 1 = Returned (d + 1).
Proof.
  unfold valid_date, date_plus_days, date_min. intros Hv Hlt.
  replace (1 <=? d + 1) with true by (symmetry; apply Z.leb_le; lia).
  replace (d + 1 <=? date_max) with true by (symmetry; apply Z.leb_le; lia).
  reflexivity.
Qed.

(** A timestamp falls before midnight of the day after its own day, and
    not before midnight of its own day. *)
Lemma within_own_day (ts : datetime) :
  midnight (date_of ts) <= ts < midnight (date_of ts + 1).
Proof.
  unfold midnight, date_of.
  assert (H : 0 < usec_per_day) by (unfold usec_per_day; lia).
  pose proof (Z.mul_div_le ts usec_per_day H).
  pose proof (Z.mul_succ_div_gt ts usec_per_day H).
  lia.
Qed.

Lemma on_or_after_day (d : date) (ts : datetime) :
  midnight d <= ts <-> d <= date_of ts.
Proof.
  pose proof (within_own_day ts) as Hw.
  unfold midnight, usec_per_day in *. nia.
Qed.

Lemma before_next_day (d : date) (ts : datetime) :
  ts < midnight (d + 1) <-> date_of ts <= d.
Proof.
  pose proof (within_own_day ts) as Hw.
  unfold midnight, usec_per_day in *. nia.
Qed.

Lemma midnight_mono (d d' : date) : d <= d' -> midnight d <= midnight d'.
Proof. unfold midnight, usec_per_day. lia. Qed.

Lemma get_all_transactions_returns (start_date end_date : option date) db :
  (forall e, end_date = Some e -> valid_date e /\ e < date_max) ->
  get_all_transactions start_date end_date db =
  (Returned (order_by_desc t_transaction_date
               (filter (in_window start_date end_date) (transactions db))),
   db).
Proof.
  intros Hend. unfold get_all_transactions, in_window.
  destruct end_date as [e|].
  - destruct (Hend e eq_refl) as [Hv Hlt].
    rewrite (date_plus_one e Hv Hlt).
    destruct start_date as [d|].
    + now rewrite filter_twice.
    + reflexivity.
  - destruct start_date as [d|].
    + do 3 f_equal. apply filter_ext. intros t. now rewrite andb_true_r.
    + now rewrite filter_all.
Qed.

(** C8.  For an end date, when given, before the last representable day
    (so that the day after it exists), the sales-history query returns,
    and leaves the store as it was.  The transactions it returns are
    ordered by transaction date descending and are exactly the stored
    transactions (each as often as stored) dated at or after midnight of
    the start date, when given, and before midnight of the day after the
    end date, when given -- that is, those whose calendar day lies between
    the start date and the end date, both included.  In particular every
    transaction dated anywhere
    on the end date is returned when the start date is not after the end
    date, and with no end date every transaction dated at or after the
    start date is returned. *)
Theorem get_all_transactions_window
    (start_date end_date : option date) db :
  (forall e, end_date = Some e -> valid_date e /\ e < date_max) ->
  exists l,
    get_all_transactions start_date end_date db = (Returned l, db)
    /\ StronglySorted
         (fun a b => t_transaction_date b <= t_transaction_date a) l
    /\ Permutation l
         (filter (in_window start_date end_date) (transactions db))
    /\ (forall t, In t l <->
          In t (transactions db)
          /\ (forall d, start_date = Some d ->
                        midnight d <= t_transaction_date t)
          /\ (forall d, end_date = Some d ->
                        t_transaction_date t < midnight (d + 1)))
    /\ (forall t, In t l <->
          In t (transactions db)
          /\ (forall d, start_date = Some d ->
                        d <= date_of (t_transaction_date t))
          /\ (forall d, end_date = Some d ->
                        date_of (t_transaction_date t) <= d))
    /\ (forall t d, In t (transactions db) ->
          end_date = Some d ->
          date_of (t_transaction_date t) = d ->
          (forall d0, start_date = Some d0 -> d0 <= d) ->
          In t l)
    /\ (forall t d, In t (transactions db) ->
          end_date = None ->
          start_date = Some d ->
          midnight d <= t_transaction_date t ->
          In t l).
Proof.
  intros Hend. eexists.
  split; [apply get_all_transactions_returns, Hend|].
  split; [apply order_by_desc_sorted|].
  split; [apply order_by_desc_perm|].
  assert (Hchar : forall t,
            In t (order_by_desc t_transaction_date
                    (filter (in_window start_date end_date)
                            (transactions db))) <->
            In t (transactions db)
            /\ (forall d, start_date = Some d ->
                          midnight d <= t_transaction_date t)
            /\ (forall d, end_date = Some d ->
                          t_transaction_date t < midnight (d + 1))).
  { intros t. unfold order_by_desc.
    rewrite order_by_asc_In, filter_In. unfold in_window.
    rewrite andb_true_iff.
    destruct start_date as [d0|], end_date as [d1|];
      rewrite ?Z.leb_le, ?Z.ltb_lt; split.
    all: try (intros (Hin & H1 & H2); split; [exact Hin|]; split;
              intros d Hd; try discriminate; injection Hd as <-; assumption).
    all: intros (Hin & H1 & H2); split; [exact Hin|]; split;
      try reflexivity; (apply H1 || apply H2); reflexivity. }
  split; [exact Hchar|].
  split.
  { intros t. rewrite Hchar.
    split; intros (Hin & H1 & H2); (split; [exact Hin|]); split; intros d Hd.
    - apply on_or_after_day, H1, Hd.
    - apply before_next_day, H2, Hd.
    - apply on_or_after_day, H1, Hd.
    - apply before_next_day, H2, Hd. }
  split.
  - intros t d Hin He Hday Hstart. apply Hchar.
    split; [exact Hin|].
    pose proof (within_own_day (t_transaction_date t)) as Hw.
    rewrite Hday in Hw.
    split.
    + intros d0 Hd0. specialize (Hstart d0 Hd0).
      pose proof (midnight_mono d0 d Hstart). lia.
    + intros d1 Hd1. rewrite He in Hd1. injection Hd1 as <-. lia.
  - intros t d Hin He Hs Hge. apply Hchar.
    split; [exact Hin|]. split.
    + intros d0 Hd0. rewrite Hs in Hd0. injection Hd0 as <-. exact Hge.
    + intros d1 Hd1. rewrite He in Hd1. discriminate.
Qed.

(** C10.  In the inventory query a filter id of 0 counts as no filter:
    passing 0 for the tree type (or the location) gives the same result
    as passing nothing for it, and with both ids 0 or absent every lot is
    returned.  A non-zero id selects exactly the lots whose tree-type id
    (location id) equals it, in table order; both filters combine. *)
Theorem get_all_stock_entries_zero_is_no_filter db :
  (forall lid, get_all_stock_entries (Some 0) lid db
               = get_all_stock_entries None lid db)
  /\ (forall tid, get_all_stock_entries tid (Some 0) db
                  = get_all_stock_entries tid None db)
  /\ get_all_stock_entries (Some 0) (Some 0) db = stock db
  /\ get_all_stock_entries (Some 0) None db = stock db
  /\ get_all_stock_entries None (Some 0) db = stock db
  /\ get_all_stock_entries None None db = stock db
  /\ (forall tid, tid <> 0 ->
        get_all_stock_entries (Some tid) None db
        = filter (fun s => s_tree_type_id s =? tid) (stock db))
  /\ (forall lid, lid <> 0 ->
        get_all_stock_entries None (Some lid) db
        = filter (fun s => s_location_id s =? lid) (stock db))
  /\ (forall tid lid, tid <> 0 -> lid <> 0 ->
        get_all_stock_entries (Some tid) (Some lid) db
        = filter (fun s => (s_tree_type_id s =? tid)
                           && (s_location_id s =? lid)) (stock db))
  /\ (forall tid lid s, tid <> 0 -> lid <> 0 ->
        (In s (get_all_stock_entries (Some tid) None db) <->
           In s (stock db) /\ s_tree_type_id s = tid)
        /\ (In s (get_all_stock_entries None (Some lid) db) <->
              In s (stock db) /\ s_location_id s = lid)).
Proof.
  unfold get_all_stock_entries, filter_if_truthy. simpl.
  do 6 (split; [reflexivity|]).
  assert (H1 : forall tid, tid <> 0 ->
            (if tid =? 0 then stock db
             else filter (fun s => s_tree_type_id s =? tid) (stock db))
            = filter (fun s => s_tree_type_id s =? tid) (stock db)).
  { intros tid Ht. apply Z.eqb_neq in Ht. now rewrite Ht. }
  assert (H2 : forall lid (q : list (@Stock price)), lid <> 0 ->
            (if lid =? 0 then q
             else filter (fun s => s_location_id s =? lid) q)
            = filter (fun s => s_location_id s =? lid) q).
  { intros lid q Hl. apply Z.eqb_neq in Hl. now rewrite Hl. }
  split; [exact H1|].
  split; [intros lid Hl; now apply H2|].
  split.
  { intros tid lid Ht Hl. rewrite H1, H2 by assumption.
    apply filter_twice. }
  intros tid lid s Ht Hl. rewrite H1, H2 by assumption.
  rewrite !filter_In, !Z.eqb_eq. tauto.
Qed.
End Reads.

(** ** Further properties of the ledger operations *)

Section Outcomes.
Context {price : Type}.
Variable price_times : price -> Z -> price.
Implicit Types (db : @DB price) (s : @Stock price).

Lemma total_available_nonneg tid db : 0 <= total_available tid db.
Proof.
  rewrite total_available_filter. unfold total_quantity.
  induction (stock db) as [|x tl IH]; simpl; [lia|].
  destruct (s_tree_type_id x =? tid); simpl; [|exact IH].
  destruct (0 <? s_quantity x) eqn:E; simpl; [|exact IH].
  apply Z.ltb_lt in E. lia.
Qed.

Lemma sell_loop_nothing_to_sell entries q (tbl : list (@Stock price)) :
  q <= 0 -> sell_loop entries q tbl = tbl.
Proof.
  intros Hq. destruct entries as [|e rest]; [reflexivity|]. simpl.
  apply Z.leb_le in Hq. now rewrite Hq.
Qed.


(** X2.  [record_sale] returns [None] exactly when the tree type is not in
    the store or its lots with quantity > 0 hold less than the quantity
    asked for; in every other case it returns the new transaction. *)
Theorem record_sale_none_iff (now : datetime) (tid q : Z) db :
  fst (record_sale price_times now tid q db) = None <->
  (get_tree_type_by_id tid db = None \/ total_available tid db < q).
Proof.
  unfold record_sale.
  destruct (get_tree_type_by_id tid db) as [tt|] eqn:Htt.
  - cbv zeta. fold (total_available tid db).
    destruct (total_available tid db <? q) eqn:Hq; simpl.
    + apply Z.ltb_lt in Hq. split; [now right | reflexivity].
    + apply Z.ltb_ge in Hq. split; [discriminate|].
      intros [H|H]; [discriminate | lia].
  - simpl. split; [now left | reflexivity].
Qed.

(** X3.  [record_sale] does not check the sign of the quantity: for a tree
    type in the store and a quantity that is zero or negative the sale goes
    through, no lot changes, and a transaction with that quantity (and the
    correspondingly signed total) is appended. *)
Theorem record_sale_accepts_nonpositive_quantity
    (now : datetime) (tid q : Z) db (tt : @TreeType price) :
  get_tree_type_by_id tid db = Some tt ->
  q <= 0 ->
  exists tx,
    record_sale price_times now tid q db
    = (Some tx,
       {| tree_types := tree_types db; locations := locations db;
          stock := stock db; transactions := transactions db ++ [tx] |})
    /\ t_quantity_sold tx = q
    /\ t_total_amount tx = price_times (tt_base_unit_price tt) q.
Proof.
  intros Htt Hq. unfold record_sale. rewrite Htt. cbv zeta.
  fold (total_available tid db).
  pose proof (total_available_nonneg tid db) as H0.
  replace (total_available tid db <? q) with false
    by (symmetry; apply Z.ltb_ge; lia).
  rewrite sell_loop_nothing_to_sell by exact Hq.
  eexists. split; [reflexivity|]. split; reflexivity.
Qed.

Lemma set_quantity_twice i q1 q2 (tbl : list (@Stock price)) :
  set_quantity i q2 (set_quantity i q1 tbl) = set_quantity i q2 tbl.
Proof.
  unfold set_quantity, update_row. rewrite map_map. apply map_ext.
  intros s. destruct (s_id s =? i) eqn:E; simpl; now rewrite E.
Qed.

Lemma lookup_set_quantity i j q (tbl : list (@Stock price)) :
  lookup_stock j (set_quantity i q tbl) =
  if j =? i then option_map (with_quantity q) (lookup_stock j tbl)
  else lookup_stock j tbl.
Proof. apply lookup_update_row, with_quantity_only. Qed.

(** X4.  [update_stock_quantity] returns [None] exactly when the lot id is
    not in the store.  Reading the lot back afterwards gives the same lot
    with the new quantity, every other lot reads as before, and a second
    update of the same lot overrides the first: the store is the one a
    single update with the last quantity gives. *)
Theorem update_stock_quantity_last_write_wins (i q1 q2 : Z) db :
  (fst (update_stock_quantity i q1 db) = None <->
     get_stock_by_id i db = None)
  /\ get_stock_by_id i (snd (update_stock_quantity i q1 db))
     = option_map (with_quantity q1) (get_stock_by_id i db)
  /\ fst (update_stock_quantity i q1 db)
     = get_stock_by_id i (snd (update_stock_quantity i q1 db))
  /\ (forall j, j <> i ->
        get_stock_by_id j (snd (update_stock_quantity i q1 db))
        = get_stock_by_id j db)
  /\ snd (update_stock_quantity i q2 (snd (update_stock_quantity i q1 db)))
     = snd (update_stock_quantity i q2 db).
Proof.
  unfold update_stock_quantity, get_stock_by_id.
  destruct (lookup_stock i (stock db)) as [s0|] eqn:Hl; simpl.
  - destruct (lookup_stock_In _ _ _ Hl) as [_ Hid].
    rewrite !lookup_set_quantity, Z.eqb_refl, Hl. simpl.
    split; [split; discriminate|].
    split; [reflexivity|].
    split.
    { unfold refresh. rewrite Hid, lookup_set_quantity, Z.eqb_refl, Hl.
      reflexivity. }
    split.
    { intros j Hj. rewrite lookup_set_quantity.
      apply Z.eqb_neq in Hj. now rewrite Hj. }
    unfold set_stock. simpl. now rewrite set_quantity_twice.
  - rewrite !Hl. simpl. repeat split; reflexivity.
Qed.

(** X5.  The lot [add_stock_entry] returns can be read back by its id, and
    the inventory query sees it at the end of its result exactly when it
    passes the filters: unfiltered it is always appended, and under a
    tree-type and a location filter it is appended when both ids match. *)
Theorem add_stock_entry_then_read
    (now : datetime) (tid lid q : Z) (cost : price) db :
  let row := fst (add_stock_entry now tid lid q cost db) in
  let db' := snd (add_stock_entry now tid lid q cost db) in
  get_stock_by_id (s_id row) db' = Some row
  /\ get_all_stock_entries None None db'
     = get_all_stock_entries None None db ++ [row]
  /\ (forall ft, ft <> 0 ->
        get_all_stock_entries (Some ft) None db'
        = get_all_stock_entries (Some ft) None db
          ++ (if tid =? ft then [row] else []))
  /\ (forall fl, fl <> 0 ->
        get_all_stock_entries None (Some fl) db'
        = get_all_stock_entries None (Some fl) db
          ++ (if lid =? fl then [row] else []))
  /\ (forall ft fl, ft <> 0 -> fl <> 0 ->
        get_all_stock_entries (Some ft) (Some fl) db'
        = get_all_stock_entries (Some ft) (Some fl) db
          ++ (if (tid =? ft) && (lid =? fl) then [row] else [])).
Proof.
  cbv zeta. unfold add_stock_entry, get_stock_by_id. simpl.
  split.
  { rewrite lookup_stock_app, lookup_fresh_None.
    unfold lookup_stock. simpl. now rewrite Z.eqb_refl. }
  unfold get_all_stock_entries, filter_if_truthy. simpl.
  split; [reflexivity|].
  split.
  { intros ft Hft. apply Z.eqb_neq in Hft. rewrite Hft.
    rewrite filter_app. simpl. now destruct (tid =? ft). }
  split.
  { intros fl Hfl. apply Z.eqb_neq in Hfl. rewrite Hfl.
    rewrite filter_app. simpl. now destruct (lid =? fl). }
  intros ft fl Hft Hfl. apply Z.eqb_neq in Hft, Hfl. rewrite Hft, Hfl.
  rewrite !filter_app. simpl.
  destruct (tid =? ft); simpl; [|reflexivity].
  now destruct (lid =? fl).
Qed.
End Outcomes.

(** ** What the ledger commands leave alone *)

Section Frame.
Context {price : Type}.
Variable price_times : price -> Z -> price.
Implicit Types (db : @DB price) (s : @Stock price)
               (op : @ledger_op price).

Lemma next_id_gt {R : Type} (id : R -> Z) (rows : list R) (i : Z) :
  In i (map id rows) -> i < next_id id rows.
Proof.
  unfold next_id.
  induction rows as [|x tl IH]; cbn [map fold_right In]; [contradiction|].
  intros [<-|Hin]; [lia|]. specialize (IH Hin). lia.
Qed.

(** A command changes neither catalogue table, and the only change it can
    make to the transaction table is the one row a sale that goes through
    appends. *)
Lemma exec_frame op db :
  tree_types (exec price_times op db) = tree_types db
  /\ locations (exec price_times op db) = locations db
  /\ (transactions (exec price_times op db) = transactions db
      \/ exists now t q tx,
           op = OpSale now t q
           /\ fst (record_sale price_times now t q db) = Some tx
           /\ t_id tx = next_id t_id (transactions db)
           /\ t_quantity_sold tx = q
           /\ transactions (exec price_times op db)
              = transactions db ++ [tx]).
Proof.
  destruct op as [now t l q c | now f l q | now t q | i q]; simpl.
  - repeat split; try reflexivity. now left.
  - unfold move_stock_quantity.
    destruct (get_stock_by_id f db) as [src|]; [|now repeat split; try left].
    destruct (s_quantity src <? q); [now repeat split; try left|].
    destruct (find_lot_at (s_tree_type_id src) l (stock db));
      simpl; repeat split; try reflexivity; now left.
  - unfold record_sale.
    destruct (get_tree_type_by_id t db) as [tt|] eqn:Htt;
      [|now repeat split; try left].
    cbv zeta.
    destruct (sum (map s_quantity (available_stock_entries t db)) <? q)
      eqn:Hlt; [now repeat split; try left|].
    simpl. split; [reflexivity|]. split; [reflexivity|].
    right. exists now, t, q. eexists. split; [reflexivity|].
    rewrite Htt, Hlt. simpl. repeat split; reflexivity.
  - unfold update_stock_quantity.
    destruct (get_stock_by_id i db); simpl; repeat split; try reflexivity;
      now left.
Qed.

Lemma run_cons op (ops : list (@ledger_op price)) db :
  run price_times (op :: ops) db
  = run price_times ops (exec price_times op db).
Proof. reflexivity. Qed.

Lemma run_tree_types (ops : list (@ledger_op price)) db :
  tree_types (run price_times ops db) = tree_types db.
Proof.
  revert db. induction ops as [|op ops IH]; intros db; [reflexivity|].
  rewrite run_cons, IH. apply exec_frame.
Qed.

(** X6.  No run of ledger commands (add, move, sale, quantity update, with
    any arguments) changes the tree-type or the location table, and none
    rewrites or removes a transaction: the transaction table after the run
    is the table before it followed by at most one new row per command. *)
Theorem ledger_run_appends_transactions_only
    (ops : list (@ledger_op price)) db :
  tree_types (run price_times ops db) = tree_types db
  /\ locations (run price_times ops db) = locations db
  /\ exists added,
       transactions (run price_times ops db) = transactions db ++ added
       /\ (List.length added <= List.length ops)%nat.
Proof.
  revert db. induction ops as [|op ops IH]; intros db.
  - repeat split. exists []. split; [now rewrite app_nil_r | reflexivity].
  - rewrite run_cons.
    destruct (IH (exec price_times op db)) as (H1 & H2 & added & H3 & H4).
    destruct (exec_frame op db) as (E1 & E2 & E3).
    rewrite H1, H2, H3.
    split; [exact E1|]. split; [exact E2|].
    destruct E3 as [-> | (now & t & q & tx & _ & _ & _ & _ & ->)].
    + exists added. split; [reflexivity | simpl; lia].
    + exists (tx :: added). split; [now rewrite <- app_assoc | simpl; lia].
Qed.

(** X7.  Transaction ids stay distinct: if no two transactions of the
    store share an id, no two do after any run of ledger commands. *)
Theorem transaction_ids_stay_distinct (ops : list (@ledger_op price)) db :
  NoDup (map t_id (transactions db)) ->
  NoDup (map t_id (transactions (run price_times ops db))).
Proof.
  revert db. induction ops as [|op ops IH]; intros db Hk; [exact Hk|].
  rewrite run_cons. apply IH.
  destruct (exec_frame op db)
    as (_ & _ & [-> | (now & t & q & tx & _ & _ & Hid & _ & ->)]);
    [exact Hk|].
  rewrite map_app. simpl.
  apply NoDup_app; [exact Hk | repeat constructor; auto |].
  intros i Hi [<-|[]]. apply next_id_gt in Hi. lia.
Qed.

(** X8.  [add_stock_entry] does not look the tree type up, but
    [record_sale] does: for an id with no tree-type row, whatever run of
    ledger commands is made (it may add lots under that id), every sale of
    that id afterwards is refused and changes nothing. *)
Theorem unregistered_type_never_sells
    (ops : list (@ledger_op price)) (now : datetime) (tid q : Z) db :
  get_tree_type_by_id tid db = None ->
  record_sale price_times now tid q (run price_times ops db)
  = (None, run price_times ops db).
Proof.
  intros Hn. unfold record_sale, get_tree_type_by_id in *.
  now rewrite run_tree_types, Hn.
Qed.

Lemma total_available_after_add
    (now : datetime) (tid lid q : Z) (cost : price) db :
  0 < q ->
  total_available tid (snd (add_stock_entry now tid lid q cost db))
  = total_available tid db + q.
Proof.
  intros Hq. rewrite !total_available_filter.
  unfold add_stock_entry, total_quantity. simpl.
  rewrite filter_app, map_app, sum_app. simpl.
  rewrite Z.eqb_refl. apply Z.ltb_lt in Hq. rewrite Hq. simpl. lia.
Qed.

(** X9.  Stock added for a tree type that is in the store can be sold at
    once: after [add_stock_entry] with a positive quantity, a sale of that
    type for any quantity up to the one added goes through. *)
Theorem added_stock_can_be_sold
    (now now' : datetime) (tid lid q q' : Z) (cost : price) db
    (tt : @TreeType price) :
  get_tree_type_by_id tid db = Some tt ->
  0 < q ->
  q' <= q ->
  exists tx,
    fst (record_sale price_times now' tid q'
           (snd (add_stock_entry now tid lid q cost db))) = Some tx
    /\ t_quantity_sold tx = q'
    /\ t_unit_sale_price_at_time_of_sale tx = tt_base_unit_price tt.
Proof.
  intros Htt Hq Hq'.
  pose proof (total_available_after_add now tid lid q cost db Hq) as Ha.
  pose proof (total_available_nonneg tid db) as H0.
  unfold record_sale.
  replace (get_tree_type_by_id tid
             (snd (add_stock_entry now tid lid q cost db)))
    with (Some tt) by (symmetry; exact Htt).
  cbv zeta.
  fold (total_available tid (snd (add_stock_entry now tid lid q cost db))).
  rewrite Ha.
  replace (total_available tid db + q <? q') with false
    by (symmetry; apply Z.ltb_ge; lia).
  eexists. simpl. repeat split.
Qed.
End Frame.

(** ** Stock accounting *)

Section Accounting.
Context {price : Type}.
Variable price_times : price -> Z -> price.
Implicit Types (db : @DB price) (s : @Stock price)
               (tbl : list (@Stock price)).

Lemma sell_loop_untouched entries :
  forall remaining tbl i,
    ~ In i entries ->
    quantity_of i (sell_loop entries remaining tbl) = quantity_of i tbl.
Proof.
  induction entries as [|e rest IH]; intros remaining tbl i Hi;
    simpl; [reflexivity|].
  assert (Hne : i <> e) by (intros ->; apply Hi; now left).
  assert (Hr : ~ In i rest) by (intros H; apply Hi; now right).
  destruct (remaining <=? 0); [reflexivity|].
  destruct (quantity_of e tbl >=? remaining); rewrite IH by exact Hr.
  - apply quantity_of_update_other; [apply add_quantity_only | exact Hne].
  - apply quantity_of_update_other; [apply with_quantity_only | exact Hne].
Qed.

(** The rows the loop was handed lose, together, exactly what was to be
    sold. *)
Lemma sell_loop_entries_sum entries :
  forall remaining tbl,
    NoDup entries ->
    (forall e, In e entries -> In e (map s_id tbl)) ->
    0 <= remaining <= sum (map (fun e => quantity_of e tbl) entries) ->
    sum (map (fun e => quantity_of e (sell_loop entries remaining tbl))
             entries)
    = sum (map (fun e => quantity_of e tbl) entries) - remaining.
Proof.
  induction entries as [|e rest IH]; intros remaining tbl Hnd Hin Hrem.
  - simpl in *. lia.
  - inversion Hnd as [|? ? Hne Hnd']; subst.
    assert (Hine : In e (map s_id tbl)) by (apply Hin; now left).
    simpl in Hrem. cbn [sell_loop].
    destruct (remaining <=? 0) eqn:E0.
    { apply Z.leb_le in E0. lia. }
    apply Z.leb_gt in E0. rewrite Z.geb_leb.
    destruct (remaining <=? quantity_of e tbl) eqn:E1.
    + apply Z.leb_le in E1. rewrite sell_loop_done. cbn [map sum fold_right].
      rewrite quantity_of_add_same by exact Hine.
      rewrite (sum_quantities_ext rest tbl).
      * unfold sum. lia.
      * intros i Hi. apply quantity_of_update_other;
          [apply add_quantity_only | intros ->; contradiction].
    + apply Z.leb_gt in E1.
      set (tbl1 := set_quantity e 0 tbl).
      assert (Hrest : forall i, In i rest ->
                quantity_of i tbl1 = quantity_of i tbl)
        by (intros i Hi; apply quantity_of_update_other;
            [apply with_quantity_only | intros ->; contradiction]).
      cbn [map sum fold_right].
      rewrite sell_loop_untouched by exact Hne.
      unfold tbl1 at 1. rewrite quantity_of_set_same by exact Hine.
      fold (sum (map (fun e0 => quantity_of e0
                        (sell_loop rest (remaining - quantity_of e tbl) tbl1))
                     rest)).
      rewrite IH.
      * rewrite (sum_quantities_ext rest tbl tbl1 Hrest). unfold sum. lia.
      * exact Hnd'.
      * intros i Hi. unfold tbl1, set_quantity.
        rewrite update_row_ids by apply with_quantity_only.
        apply Hin. now right.
      * rewrite (sum_quantities_ext rest tbl tbl1 Hrest). unfold sum in *.
        lia.
Qed.

(** The loop takes what it sells out of the total of the type its rows
    belong to, and out of no other type's total. *)
Lemma sell_loop_type_total (t tid : Z) entries :
  forall remaining tbl,
    NoDup (map s_id tbl) ->
    NoDup entries ->
    (forall e, In e entries ->
       exists s, lookup_stock e tbl = Some s /\ s_tree_type_id s = tid) ->
    0 <= remaining <= sum (map (fun e => quantity_of e tbl) entries) ->
    total_of_type t (sell_loop entries remaining tbl)
    = total_of_type t tbl - (if tid =? t then remaining else 0).
Proof.
  induction entries as [|e rest IH]; intros remaining tbl Hk Hnd Hin Hrem.
  - simpl in *. assert (remaining = 0) by lia. subst.
    destruct (tid =? t); lia.
  - inversion Hnd as [|? ? Hne Hnd']; subst.
    destruct (Hin e (or_introl eq_refl)) as (se & Hse & Hte).
    assert (Hqe : quantity_of e tbl = s_quantity se)
      by (unfold quantity_of; now rewrite Hse).
    simpl in Hrem. cbn [sell_loop].
    destruct (remaining <=? 0) eqn:E0.
    { apply Z.leb_le in E0. assert (remaining = 0) by lia. subst remaining.
      destruct (tid =? t); lia. }
    apply Z.leb_gt in E0. rewrite Z.geb_leb.
    destruct (remaining <=? quantity_of e tbl) eqn:E1.
    + rewrite sell_loop_done. unfold add_quantity.
      rewrite (total_of_type_update t e _ tbl se
                 (add_quantity_only _) Hk Hse).
      rewrite Hte. simpl. destruct (tid =? t); lia.
    + apply Z.leb_gt in E1.
      set (tbl1 := set_quantity e 0 tbl).
      assert (Hrest : forall i, In i rest ->
                quantity_of i tbl1 = quantity_of i tbl)
        by (intros i Hi; apply quantity_of_update_other;
            [apply with_quantity_only | intros ->; contradiction]).
      rewrite IH.
      * unfold tbl1, set_quantity.
        rewrite (total_of_type_update t e _ tbl se
                   (with_quantity_only _) Hk Hse).
        rewrite Hte. simpl. destruct (tid =? t); lia.
      * unfold tbl1, set_quantity.
        now rewrite update_row_ids by apply with_quantity_only.
      * exact Hnd'.
      * intros i Hi. destruct (Hin i (or_intror Hi)) as (si & Hsi & Hti).
        exists si. split; [|exact Hti].
        unfold tbl1, set_quantity.
        rewrite lookup_update_row by apply with_quantity_only.
        replace (i =? e) with false
          by (symmetry; apply Z.eqb_neq; intros ->; contradiction).
        exact Hsi.
      * rewrite (sum_quantities_ext rest tbl tbl1 Hrest). unfold sum in *.
        lia.
Qed.

Lemma available_sum_by_ids tid db :
  stock_wf db ->
  sum (map (fun e => quantity_of e (stock db))
           (map s_id (available_stock_entries tid db)))
  = total_available tid db.
Proof.
  intros Hk. unfold total_available. rewrite map_map. f_equal.
  apply map_ext_in. intros s Hs. apply available_In in Hs.
  apply quantity_of_unique; tauto.
Qed.

(** X10.  A sale that goes through (the tree type is in the store, the
    quantity is >= 0 and covered) lowers the total held of the sold type by
    exactly the quantity sold and leaves the total of every other tree type
    as it was. *)
Theorem record_sale_takes_from_its_type_only
    (now : datetime) (tid q t : Z) db (tt : @TreeType price) :
  stock_wf db ->
  get_tree_type_by_id tid db = Some tt ->
  0 <= q ->
  q <= total_available tid db ->
  total_of_type t (stock (snd (record_sale price_times now tid q db)))
  = total_of_type t (stock db) - (if tid =? t then q else 0).
Proof.
  intros Hk Htt Hq0 Hq. unfold record_sale. rewrite Htt. cbv zeta.
  fold (total_available tid db).
  replace (total_available tid db <? q) with false
    by (symmetry; apply Z.ltb_ge; exact Hq).
  simpl. apply sell_loop_type_total.
  - exact Hk.
  - now apply available_NoDup.
  - intros e He. apply in_map_iff in He. destruct He as [s [<- Hs]].
    apply available_In in Hs. exists s.
    split; [apply lookup_stock_unique; tauto | tauto].
  - rewrite available_sum_by_ids by exact Hk. lia.
Qed.

(** A transfer leaves the total over all lots as it was. *)
Lemma move_total_quantity (now : datetime) (from to q : Z) db :
  stock_wf db ->
  total_quantity (stock (snd (move_stock_quantity now from to q db)))
  = total_quantity (stock db).
Proof.
  intros Hk.
  destruct (get_stock_by_id from db) as [src|] eqn:Hsrc;
    [|now rewrite move_guard_fails by (now left)].
  destruct (Z.lt_ge_cases (s_quantity src) q) as [Hlt|Hq];
    [now rewrite move_guard_fails by (right; exists src; now split)|].
  destruct (get_stock_by_id_In _ _ _ Hsrc) as [Hin Hfrom].
  pose proof Hsrc as Hl. unfold get_stock_by_id in Hl.
  destruct (find_lot_at (s_tree_type_id src) to (stock db)) as [e|] eqn:He.
  - destruct (find_lot_at_Some _ _ _ _ He) as (Hine & _ & _).
    destruct (Z.eq_dec (s_id e) from) as [Hid|Hid].
    + destruct (move_onto_itself now from to q db src e Hk Hsrc Hq He Hid)
        as [_ ->]. reflexivity.
    + rewrite (move_onto_existing now from to q db src e Hk Hsrc Hq He Hid).
      simpl. unfold add_quantity at 1.
      rewrite (total_update_row from _ _ src).
      * unfold add_quantity.
        rewrite (total_update_row (s_id e) _ _ e Hk
                   (lookup_stock_unique _ e Hk Hine)).
        simpl. lia.
      * now apply add_quantity_wf.
      * rewrite lookup_add_quantity.
        replace (from =? s_id e) with false
          by (symmetry; apply Z.eqb_neq; congruence).
        exact Hl.
  - pose proof (move_onto_new now from to q db src Hk Hsrc Hq He) as Hmove.
    cbv zeta in Hmove. rewrite Hmove. clear Hmove. simpl.
    unfold total_quantity at 1. rewrite map_app, sum_app.
    fold (total_quantity (add_quantity from (- q) (stock db))).
    unfold add_quantity. rewrite (total_update_row from _ _ src Hk Hl).
    simpl. lia.
Qed.

(** One command of a run without quantity updates keeps the balance. *)
Lemma exec_balance (op : @ledger_op price) db :
  stock_wf db -> op_pre op -> is_update op = false ->
  total_quantity (stock (exec price_times op db))
  + units_sold (exec price_times op db)
  = total_quantity (stock db) + units_sold db + units_added [op].
Proof.
  intros Hk Hpre Hup.
  destruct op as [now t l q c | now f l q | now t q | i q];
    simpl in Hpre; try discriminate Hup; unfold units_added; simpl.
  - unfold total_quantity, units_sold. simpl.
    rewrite map_app, sum_app. simpl. lia.
  - rewrite (move_total_quantity now f l q db Hk).
    destruct (exec_frame price_times (OpMove now f l q) db)
      as (_ & _ & [H | (? & ? & ? & ? & H & _)]); [|discriminate H].
    simpl in H. unfold units_sold. rewrite H. lia.
  - unfold record_sale.
    destruct (get_tree_type_by_id t db) as [tt|]; [|simpl; lia].
    cbv zeta. fold (total_available t db).
    destruct (total_available t db <? q) eqn:Hlt; [simpl; lia|].
    apply Z.ltb_ge in Hlt. simpl.
    assert (Hq : 0 <= q <= total_available t db) by lia.
    pose proof (sale_loop_spec t q db Hk Hq) as Hloop.
    cbv zeta in Hloop. destruct Hloop as (_ & _ & _ & I4 & _).
    unfold units_sold. simpl. rewrite map_app, sum_app. simpl. lia.
Qed.

(** X11.  Seedlings are neither lost nor made up by the ledger: over any
    run of add, move and sale commands with positive quantities (no direct
    quantity updates), started from a store with distinct lot ids and no
    negative quantity, the stock on hand plus the units recorded as sold
    grows by exactly the quantities added. *)
Theorem stock_on_hand_plus_sold_balances
    (ops : list (@ledger_op price)) db :
  stock_wf db ->
  stock_nonneg db ->
  Forall op_pre ops ->
  Forall (fun op => is_update op = false) ops ->
  total_quantity (stock (run price_times ops db))
  + units_sold (run price_times ops db)
  = total_quantity (stock db) + units_sold db + units_added ops.
Proof.
  intros Hk Hn Hpre Hup. revert db Hk Hn Hup.
  induction Hpre as [|op ops Hop Hops IH]; intros db Hk Hn Hup.
  - unfold units_added. simpl. lia.
  - inversion Hup as [|? ? Hu Hup']; subst.
    rewrite run_cons.
    destruct (exec_invariant price_times op db Hk Hn Hop) as (Hk1 & Hn1 & _).
    rewrite (IH _ Hk1 Hn1 Hup').
    pose proof (exec_balance op db Hk Hop Hu) as Hb.
    unfold units_added in *. simpl in *. lia.
Qed.
End Accounting.

(** ** Successive sales *)

Section OrderByCommutes.
Context {A : Type}.
Variable key : A -> Z.

Lemma insert_asc_front (x : A) (l : list A) :
  Forall (fun y => key x <= key y) l -> insert_asc key x l = x :: l.
Proof.
  destruct l as [|y l]; simpl; [reflexivity|].
  intros H. inversion H as [|? ? Hy _]; subst.
  apply Z.leb_le in Hy. now rewrite Hy.
Qed.

Lemma filter_insert_asc (p : A -> bool) (x : A) (l : list A) :
  StronglySorted (key_le key) l ->
  filter p (insert_asc key x l)
  = if p x then insert_asc key x (filter p l) else filter p l.
Proof.
  induction 1 as [|y l Hs IH Hall]; simpl.
  - now destruct (p x).
  - destruct (key x <=? key y) eqn:E.
    + apply Z.leb_le in E. simpl.
      destruct (p x); [|reflexivity].
      symmetry. apply insert_asc_front.
      assert (Hge : Forall (fun z => key x <= key z) (y :: l)).
      { constructor; [exact E|].
        eapply Forall_impl; [|exact Hall].
        unfold key_le. intros; lia. }
      rewrite Forall_forall in *. intros z Hz.
      apply Hge. change (In z (filter p (y :: l))) in Hz.
      apply filter_In in Hz. tauto.
    + simpl. rewrite IH.
      destruct (p y), (p x); simpl; try reflexivity.
      now rewrite E.
Qed.

(** Selecting rows and sorting them (stably) can be done in either
    order. *)
Lemma filter_order_by_asc (p : A -> bool) (l : list A) :
  filter p (order_by_asc key l) = order_by_asc key (filter p l).
Proof.
  induction l as [|x l IH]; simpl; [reflexivity|].
  rewrite filter_insert_asc by apply order_by_asc_sorted.
  rewrite IH. now destruct (p x).
Qed.

Lemma order_by_asc_map (f : A -> A) (l : list A) :
  (forall x, key (f x) = key x) ->
  order_by_asc key (map f l) = map f (order_by_asc key l).
Proof.
  intros Hf. induction l as [|x l IH]; simpl; [reflexivity|].
  rewrite IH. generalize (order_by_asc key l). intros m.
  induction m as [|y m IHm]; simpl; [reflexivity|].
  rewrite !Hf. destruct (key x <=? key y); simpl; [reflexivity|].
  now rewrite IHm.
Qed.
End OrderByCommutes.

Lemma filter_map_comm {A B : Type} (p : B -> bool) (f : A -> B)
    (l : list A) :
  filter p (map f l) = map f (filter (fun x => p (f x)) l).
Proof.
  induction l as [|x l IH]; simpl; [reflexivity|].
  destruct (p (f x)); simpl; now rewrite IH.
Qed.

Lemma sum_filter_positive {A : Type} (f : A -> Z) (l : list A) :
  (forall x, In x l -> 0 <= f x) ->
  sum (map f (filter (fun x => 0 <? f x) l)) = sum (map f l).
Proof.
  induction l as [|x l IH]; simpl; intros H; [reflexivity|].
  assert (Hx : 0 <= f x) by (apply H; now left).
  assert (Hl : forall y, In y l -> 0 <= f y) by (intros; apply H; now right).
  destruct (0 <? f x) eqn:E; simpl; rewrite (IH Hl); [reflexivity|].
  apply Z.ltb_ge in E. lia.
Qed.

Section SaleComposition.
Context {price : Type}.
Variable price_times : price -> Z -> price.
Implicit Types (db : @DB price) (s : @Stock price)
               (tbl : list (@Stock price)).

Lemma add_quantity_twice e a b tbl :
  add_quantity e b (add_quantity e a tbl) = add_quantity e (a + b) tbl.
Proof.
  unfold add_quantity, update_row. rewrite map_map. apply map_ext.
  intros s. destruct (s_id s =? e) eqn:E; simpl; rewrite E; [|reflexivity].
  unfold with_quantity; simpl. f_equal. lia.
Qed.

Lemma set_quantity_after_add e a q tbl :
  set_quantity e q (add_quantity e a tbl) = set_quantity e q tbl.
Proof.
  unfold set_quantity, add_quantity, update_row. rewrite map_map.
  apply map_ext. intros s.
  destruct (s_id s =? e) eqn:E; simpl; now rewrite E.
Qed.

Lemma set_quantity_same e tbl :
  NoDup (map s_id tbl) ->
  set_quantity e (quantity_of e tbl) tbl = tbl.
Proof.
  intros Hk. unfold set_quantity, update_row.
  rewrite <- (map_id tbl) at 2. apply map_ext_in. intros s Hs.
  destruct (s_id s =? e) eqn:E; [|reflexivity].
  apply Z.eqb_eq in E. subst e.
  rewrite (quantity_of_unique tbl s Hk Hs). apply with_own_quantity.
Qed.

Lemma sell_loop_ids entries remaining tbl :
  map s_id (sell_loop entries remaining tbl) = map s_id tbl.
Proof. symmetry. apply same_lots_ids, sell_loop_same_lots. Qed.

(** Running the loop twice over the same rows sells what one run for the
    sum sells. *)
Lemma sell_loop_compose entries :
  forall q1 q2 tbl,
    NoDup (map s_id tbl) ->
    NoDup entries ->
    (forall e, In e entries -> In e (map s_id tbl)) ->
    0 <= q1 -> 0 <= q2 ->
    sell_loop entries q2 (sell_loop entries q1 tbl)
    = sell_loop entries (q1 + q2) tbl.
Proof.
  induction entries as [|e rest IH]; intros q1 q2 tbl Hk Hnd Hin H1 H2;
    [reflexivity|].
  inversion Hnd as [|? ? Hne Hnd']; subst.
  assert (Hine : In e (map s_id tbl)) by (apply Hin; now left).
  destruct (Z.eq_dec q1 0) as [->|Hq1].
  { rewrite sell_loop_done. reflexivity. }
  destruct (Z.eq_dec q2 0) as [->|Hq2].
  { rewrite sell_loop_done, Z.add_0_r. reflexivity. }
  cbn [sell_loop].
  replace (q1 <=? 0) with false by (symmetry; apply Z.leb_gt; lia).
  replace (q1 + q2 <=? 0) with false by (symmetry; apply Z.leb_gt; lia).
  rewrite !Z.geb_leb.
  destruct (q1 <=? quantity_of e tbl) eqn:E1.
  - apply Z.leb_le in E1. rewrite sell_loop_done. cbn [sell_loop].
    replace (q2 <=? 0) with false by (symmetry; apply Z.leb_gt; lia).
    rewrite ?Z.geb_leb. rewrite !quantity_of_add_same by exact Hine.
    destruct (q2 <=? quantity_of e tbl + - q1) eqn:E2.
    + apply Z.leb_le in E2.
      replace (q1 + q2 <=? quantity_of e tbl) with true
        by (symmetry; apply Z.leb_le; lia).
      rewrite !sell_loop_done, add_quantity_twice. f_equal. lia.
    + apply Z.leb_gt in E2.
      replace (q1 + q2 <=? quantity_of e tbl) with false
        by (symmetry; apply Z.leb_gt; lia).
      rewrite set_quantity_after_add. f_equal. lia.
  - apply Z.leb_gt in E1.
    replace (q1 + q2 <=? quantity_of e tbl) with false
      by (symmetry; apply Z.leb_gt; lia).
    set (tbl1 := set_quantity e 0 tbl).
    set (T := sell_loop rest (q1 - quantity_of e tbl) tbl1).
    assert (Hk1 : NoDup (map s_id tbl1)).
    { unfold tbl1, set_quantity.
      now rewrite update_row_ids by apply with_quantity_only. }
    assert (HkT : NoDup (map s_id T))
      by (unfold T; now rewrite sell_loop_ids).
    assert (HeT : quantity_of e T = 0).
    { unfold T. rewrite sell_loop_untouched by exact Hne.
      apply quantity_of_set_same, Hine. }
    cbn [sell_loop].
    replace (q2 <=? 0) with false by (symmetry; apply Z.leb_gt; lia).
    rewrite ?Z.geb_leb, HeT.
    replace (q2 <=? 0) with false by (symmetry; apply Z.leb_gt; lia).
    rewrite <- HeT at 2. rewrite (set_quantity_same e T HkT).
    unfold T. rewrite IH.
    + f_equal. lia.
    + exact Hk1.
    + exact Hnd'.
    + intros i Hi. unfold tbl1, set_quantity.
      rewrite update_row_ids by apply with_quantity_only.
      apply Hin. now right.
    + lia.
    + lia.
Qed.

(** Rows that hold nothing do not matter to the loop. *)
Lemma sell_loop_skips_empty entries :
  forall remaining tbl,
    NoDup (map s_id tbl) ->
    NoDup entries ->
    (forall e, In e entries ->
               In e (map s_id tbl) /\ 0 <= quantity_of e tbl) ->
    sell_loop (filter (fun i => 0 <? quantity_of i tbl) entries)
              remaining tbl
    = sell_loop entries remaining tbl.
Proof.
  induction entries as [|e rest IH]; intros remaining tbl Hk Hnd Hin;
    [reflexivity|].
  inversion Hnd as [|? ? Hne Hnd']; subst.
  destruct (Hin e (or_introl eq_refl)) as [Hine Hqe].
  destruct (Z.le_gt_cases remaining 0) as [H0|H0].
  { now rewrite !sell_loop_nothing_to_sell by exact H0. }
  assert (Hext : forall tbl1,
            (forall i, In i rest -> quantity_of i tbl1 = quantity_of i tbl) ->
            filter (fun i => 0 <? quantity_of i tbl) rest
            = filter (fun i => 0 <? quantity_of i tbl1) rest).
  { intros tbl1 H. apply filter_ext_in. intros i Hi. now rewrite H. }
  cbn [filter].
  destruct (0 <? quantity_of e tbl) eqn:Epos.
  - cbn [sell_loop].
    replace (remaining <=? 0) with false by (symmetry; apply Z.leb_gt; lia).
    destruct (quantity_of e tbl >=? remaining).
    + now rewrite !sell_loop_done.
    + set (tbl1 := set_quantity e 0 tbl).
      assert (Hrest : forall i, In i rest ->
                quantity_of i tbl1 = quantity_of i tbl)
        by (intros i Hi; apply quantity_of_update_other;
            [apply with_quantity_only | intros ->; contradiction]).
      rewrite (Hext tbl1 Hrest). apply IH.
      * unfold tbl1, set_quantity.
        now rewrite update_row_ids by apply with_quantity_only.
      * exact Hnd'.
      * intros i Hi. rewrite (Hrest i Hi). unfold tbl1, set_quantity.
        rewrite update_row_ids by apply with_quantity_only.
        apply Hin. now right.
  - apply Z.ltb_ge in Epos. assert (Hz : quantity_of e tbl = 0) by lia.
    cbn [sell_loop].
    replace (remaining <=? 0) with false by (symmetry; apply Z.leb_gt; lia).
    rewrite Z.geb_leb, Hz.
    replace (remaining <=? 0) with false by (symmetry; apply Z.leb_gt; lia).
    rewrite <- Hz at 2. rewrite (set_quantity_same e tbl Hk).
    rewrite Z.sub_0_r. apply IH; try assumption.
    intros i Hi. apply Hin. now right.
Qed.

Lemma same_lots_rows_by (g : Z -> Z) tbl :
  forall tbl',
    same_lots tbl tbl' ->
    (forall s', In s' tbl' -> s_quantity s' = g (s_id s')) ->
    tbl' = map (fun s => with_quantity (g (s_id s)) s) tbl.
Proof.
  unfold same_lots.
  induction tbl as [|x tl IH]; intros [|x' tl'] Hsame Hq;
    try discriminate; [reflexivity|].
  simpl in Hsame. injection Hsame as Hid Hty Hloc Hdate Hcost Htl.
  simpl. f_equal.
  - rewrite Hid, <- (Hq x' (or_introl eq_refl)).
    destruct x, x'. unfold with_quantity. simpl in *. subst. reflexivity.
  - apply IH; [exact Htl|]. intros s' Hs'. apply Hq. now right.
Qed.

(** A table that holds the same lots as [tbl] is [tbl] with each row's
    quantity replaced by the one the table holds for its id. *)
Lemma same_lots_rows tbl tbl' :
  same_lots tbl tbl' ->
  NoDup (map s_id tbl') ->
  tbl' = map (fun s => with_quantity (quantity_of (s_id s) tbl') s) tbl.
Proof.
  intros Hsame Hk.
  apply (same_lots_rows_by (fun i => quantity_of i tbl')); [exact Hsame|].
  intros s' Hs'. symmetry. now apply quantity_of_unique.
Qed.
End SaleComposition.

Section TwoSales.
Context {price : Type}.
Variable price_times : price -> Z -> price.
Implicit Types (db : @DB price) (s : @Stock price)
               (tbl : list (@Stock price)).

(** What a sale that goes through makes of the store. *)
Lemma record_sale_goes_through
    (now : datetime) (tid q : Z) db (tt : @TreeType price) :
  get_tree_type_by_id tid db = Some tt ->
  q <= total_available tid db ->
  exists tx,
    record_sale price_times now tid q db
    = (Some tx,
       {| tree_types := tree_types db; locations := locations db;
          stock := sell_loop (map s_id (available_stock_entries tid db)) q
                     (stock db);
          transactions := transactions db ++ [tx] |}).
Proof.
  intros Htt Hq. unfold record_sale. rewrite Htt. cbv zeta.
  fold (total_available tid db).
  replace (total_available tid db <? q) with false
    by (symmetry; apply Z.ltb_ge; exact Hq).
  eexists. reflexivity.
Qed.

(** After quantities have gone down, the query of [record_sale] returns
    the rows it returned before, in the same order, less those that now
    hold nothing. *)
Lemma available_after_decrease tid db db' :
  same_lots (stock db) (stock db') ->
  NoDup (map s_id (stock db')) ->
  (forall s, In s (stock db) ->
             quantity_of (s_id s) (stock db') <= s_quantity s) ->
  map s_id (available_stock_entries tid db')
  = filter (fun i => 0 <? quantity_of i (stock db'))
           (map s_id (available_stock_entries tid db)).
Proof.
  intros Hsame Hk' Hle.
  set (G := fun s : @Stock price =>
              with_quantity (quantity_of (s_id s) (stock db')) s).
  assert (Htbl : stock db' = map G (stock db))
    by (apply same_lots_rows; assumption).
  unfold available_stock_entries.
  replace (filter (fun s => (s_tree_type_id s =? tid) && (0 <? s_quantity s))
                  (stock db'))
    with (filter (fun s => (s_tree_type_id s =? tid) && (0 <? s_quantity s))
                 (map G (stock db)))
    by (now rewrite <- Htbl).
  rewrite filter_map_comm, order_by_asc_map by reflexivity.
  rewrite map_map. simpl.
  rewrite (filter_map_comm (fun i => 0 <? quantity_of i (stock db')) s_id).
  rewrite filter_order_by_asc, filter_twice.
  do 2 f_equal. apply filter_ext_in. intros s Hs.
  specialize (Hle s Hs).
  destruct (s_tree_type_id s =? tid); simpl; [|reflexivity].
  destruct (0 <? quantity_of (s_id s) (stock db')) eqn:E.
  - apply Z.ltb_lt in E.
    replace (0 <? s_quantity s) with true
      by (symmetry; apply Z.ltb_lt; lia).
    reflexivity.
  - now rewrite andb_false_r.
Qed.

(** X12.  Selling in two steps is selling once: when the tree type is in
    the store and the available lots cover [q1 + q2] (both >= 0), a sale of
    [q1] lowers what is available of the type by exactly [q1], the sale of
    [q2] that follows goes through, and the lot table after the two sales
    is the lot table one sale of [q1 + q2] gives. *)
Theorem two_sales_consume_as_one
    (now1 now2 now : datetime) (tid q1 q2 : Z) db (tt : @TreeType price) :
  stock_wf db ->
  get_tree_type_by_id tid db = Some tt ->
  0 <= q1 ->
  0 <= q2 ->
  q1 + q2 <= total_available tid db ->
  let db1 := snd (record_sale price_times now1 tid q1 db) in
  let db2 := snd (record_sale price_times now2 tid q2 db1) in
  total_available tid db1 = total_available tid db - q1
  /\ fst (record_sale price_times now1 tid q1 db) <> None
  /\ fst (record_sale price_times now2 tid q2 db1) <> None
  /\ stock db2
     = stock (snd (record_sale price_times now tid (q1 + q2) db)).
Proof.
  intros Hk Htt H1 H2 Hq. cbv zeta.
  set (entries := map s_id (available_stock_entries tid db)).
  destruct (record_sale_goes_through now1 tid q1 db tt Htt ltac:(lia))
    as [tx1 Hs1].
  destruct (record_sale_goes_through now tid (q1 + q2) db tt Htt Hq)
    as [tx Hs].
  rewrite Hs1, Hs. cbn [fst snd stock]. fold entries.
  set (tbl1 := sell_loop entries q1 (stock db)).
  set (db1 := {| tree_types := tree_types db; locations := locations db;
                 stock := tbl1; transactions := transactions db ++ [tx1] |}).
  pose proof (sale_loop_spec tid q1 db Hk ltac:(lia)) as Hloop.
  cbv zeta in Hloop. fold entries in Hloop. fold tbl1 in Hloop.
  destruct Hloop as (I1 & I2 & I3 & _ & _).
  assert (Hnd : NoDup entries) by now apply available_NoDup.
  assert (Hin : forall e, In e entries -> In e (map s_id (stock db))).
  { intros e He. apply in_map_iff in He. destruct He as [s [<- Hs']].
    apply available_In in Hs'. apply in_map. tauto. }
  assert (Hk1 : NoDup (map s_id tbl1)).
  { unfold stock_wf in Hk. now rewrite (same_lots_ids _ _ I1) in Hk. }
  assert (Hle : forall s, In s (stock db) ->
                  quantity_of (s_id s) tbl1 <= s_quantity s).
  { intros s Hs'.
    rewrite <- (quantity_of_unique (stock db) s Hk Hs').
    destruct (in_dec Z.eq_dec (s_id s) entries) as [Hi|Hi].
    - apply I3, Hi.
    - rewrite I2 by exact Hi. lia. }
  assert (Hids : map s_id (available_stock_entries tid db1)
                 = filter (fun i => 0 <? quantity_of i tbl1) entries)
    by (apply (available_after_decrease tid db db1); assumption).
  assert (Hav : total_available tid db1 = total_available tid db - q1).
  { rewrite <- (available_sum_by_ids tid db1 Hk1), Hids.
    change (stock db1) with tbl1.
    rewrite (sum_filter_positive (fun i => quantity_of i tbl1))
      by (intros i Hi; apply I3, Hi).
    unfold tbl1. rewrite sell_loop_entries_sum.
    - unfold entries. now rewrite available_sum_by_ids.
    - exact Hnd.
    - exact Hin.
    - unfold entries. rewrite available_sum_by_ids by exact Hk. lia. }
  split; [exact Hav|].
  split; [discriminate|].
  destruct (record_sale_goes_through now2 tid q2 db1 tt Htt ltac:(lia))
    as [tx2 Hs2].
  rewrite Hs2. cbn [fst snd stock].
  split; [discriminate|].
  rewrite Hids. change (stock db1) with tbl1.
  rewrite sell_loop_skips_empty.
  - unfold tbl1. apply sell_loop_compose; assumption.
  - exact Hk1.
  - exact Hnd.
  - intros e He. split; [|apply I3, He].
    rewrite <- (same_lots_ids _ _ I1). apply Hin, He.
Qed.
End TwoSales.

(** ** The catalogue *)

Section Catalogue.
Context {price : Type}.
Implicit Types (db : @DB price).

Lemma name_taken_iff {R : Type} (name_of : R -> string) (name : string)
    (rows : list R) :
  name_taken name_of name rows = true <-> In name (map name_of rows).
Proof.
  unfold name_taken. rewrite existsb_exists, in_map_iff.
  split; intros [r [H1 H2]]; exists r.
  - apply String.eqb_eq in H2. now split.
  - split; [exact H2 | now apply String.eqb_eq].
Qed.

Lemma name_free_iff {R : Type} (name_of : R -> string) (name : string)
    (rows : list R) :
  name_taken name_of name rows = false <-> ~ In name (map name_of rows).
Proof.
  rewrite <- name_taken_iff.
  destruct (name_taken name_of name rows); split; intros H;
    try discriminate; try reflexivity.
  exfalso. now apply H.
Qed.

Lemma find_by_id_snoc {R : Type} (id : R -> Z) (rows : list R) (r : R)
    (i : Z) :
  id r = next_id id rows ->
  find (fun x => id x =? i) (rows ++ [r])
  = if i =? id r then Some r else find (fun x => id x =? i) rows.
Proof.
  intros Hid.
  assert (Hfresh : forall x, In x rows -> id x <> id r).
  { intros x Hx. assert (id x < next_id id rows)
      by (apply next_id_gt; now apply in_map). lia. }
  clear Hid. induction rows as [|y tl IH]; simpl.
  - rewrite (Z.eqb_sym i). now destruct (id r =? i).
  - destruct (id y =? i) eqn:E.
    + apply Z.eqb_eq in E. subst i.
      replace (id y =? id r) with false; [reflexivity|].
      symmetry. apply Z.eqb_neq, Hfresh. now left.
    + apply IH. intros x Hx. apply Hfresh. now right.
Qed.

(** X13.  [create_tree_type] with a name no tree type of the store has
    commits one new row holding the given name, description and price under
    an id no row had; the row is returned, [get_all_tree_types] lists it
    last after the rows it listed before, [get_tree_type_by_id] finds it by
    its id and finds every other id as before, and no other table
    changes. *)
Theorem create_tree_type_then_read
    (name : string) (base_price : price) (description : option string) db :
  ~ In name (map tt_name (tree_types db)) ->
  exists row db',
    create_tree_type name base_price description db = (Committed row, db')
    /\ tt_name row = name
    /\ tt_description row = description
    /\ tt_base_unit_price row = base_price
    /\ ~ In (tt_id row) (map tt_id (tree_types db))
    /\ get_all_tree_types db' = get_all_tree_types db ++ [row]
    /\ get_tree_type_by_id (tt_id row) db' = Some row
    /\ (forall i, i <> tt_id row ->
          get_tree_type_by_id i db' = get_tree_type_by_id i db)
    /\ locations db' = locations db
    /\ stock db' = stock db
    /\ transactions db' = transactions db.
Proof.
  intros Hfree. apply name_free_iff in Hfree.
  unfold create_tree_type. rewrite Hfree.
  do 2 eexists. split; [reflexivity|]. simpl.
  do 3 (split; [reflexivity|]).
  split; [intros H; apply next_id_gt in H; lia|].
  split; [reflexivity|].
  unfold get_tree_type_by_id. simpl.
  split.
  { rewrite find_by_id_snoc by reflexivity. simpl. now rewrite Z.eqb_refl. }
  split; [|repeat split].
  intros i Hi. rewrite find_by_id_snoc by reflexivity. simpl.
  apply Z.eqb_neq in Hi. now rewrite Hi.
Qed.

(** X14.  [create_tree_type] is refused by the store ([IntegrityError])
    exactly when some tree type already has the name, and a refused call
    leaves the store as it was.  So, whatever it is called with, tree-type
    names stay pairwise distinct and tree-type ids stay pairwise
    distinct. *)
Theorem create_tree_type_keeps_catalogue_unique
    (name : string) (base_price : price) (description : option string) db :
  NoDup (map tt_name (tree_types db)) ->
  NoDup (map tt_id (tree_types db)) ->
  let r := create_tree_type name base_price description db in
  (fst r = IntegrityError <-> In name (map tt_name (tree_types db)))
  /\ (fst r = IntegrityError -> snd r = db)
  /\ NoDup (map tt_name (tree_types (snd r)))
  /\ NoDup (map tt_id (tree_types (snd r))).
Proof.
  intros Hn Hi. cbv zeta. unfold create_tree_type.
  destruct (name_taken tt_name name (tree_types db)) eqn:E; simpl.
  - apply name_taken_iff in E. repeat split; auto.
  - apply name_free_iff in E.
    split; [split; [discriminate | intros H; contradiction]|].
    split; [discriminate|].
    rewrite !map_app. simpl. split.
    + apply NoDup_app; [exact Hn | repeat constructor; auto |].
      intros x Hx [<-|[]]. contradiction.
    + apply NoDup_app; [exact Hi | repeat constructor; auto |].
      intros x Hx [<-|[]]. apply next_id_gt in Hx. lia.
Qed.

(** X15.  [create_location] with a name no location of the store has
    commits one new row with the given name and description under an id no
    row had; [get_all_locations] lists it last, [get_location_by_id] finds
    it by its id and every other id as before, and no other table
    changes. *)
Theorem create_location_then_read
    (name : string) (description : option string) db :
  ~ In name (map loc_name (locations db)) ->
  exists row db',
    create_location name description db = (Committed row, db')
    /\ loc_name row = name
    /\ loc_description row = description
    /\ ~ In (loc_id row) (map loc_id (locations db))
    /\ get_all_locations db' = get_all_locations db ++ [row]
    /\ get_location_by_id (loc_id row) db' = Some row
    /\ (forall i, i <> loc_id row ->
          get_location_by_id i db' = get_location_by_id i db)
    /\ tree_types db' = tree_types db
    /\ stock db' = stock db
    /\ transactions db' = transactions db.
Proof.
  intros Hfree. apply name_free_iff in Hfree.
  unfold create_location. rewrite Hfree.
  do 2 eexists. split; [reflexivity|]. simpl.
  do 2 (split; [reflexivity|]).
  split; [intros H; apply next_id_gt in H; lia|].
  split; [reflexivity|].
  unfold get_location_by_id. simpl.
  split.
  { rewrite find_by_id_snoc by reflexivity. simpl. now rewrite Z.eqb_refl. }
  split; [|repeat split].
  intros i Hi. rewrite find_by_id_snoc by reflexivity. simpl.
  apply Z.eqb_neq in Hi. now rewrite Hi.
Qed.

End Catalogue.

(** ** Edges of the sales-history query *)

Section HistoryEdges.
Context {price : Type}.
Implicit Types (db : @DB price).

Lemma filter_none {X : Type} (p : X -> bool) (l : list X) :
  (forall x, In x l -> p x = false) -> filter p l = [].
Proof.
  induction l as [|x l IH]; simpl; intros H; [reflexivity|].
  rewrite (H x (or_introl eq_refl)). apply IH.
  intros y Hy. apply H. now right.
Qed.

(** X17.  The sales-history query raises exactly when it is given the
    last representable day (9999-12-31) as end date, whose next day does
    not exist; with any other end date, or none, it returns.  The store is
    left as it was either way. *)
Theorem get_all_transactions_raises_on_last_day_only
    (start_date : option date) (e : date) db :
  valid_date e ->
  (fst (get_all_transactions start_date (Some e) db) = OverflowError
   <-> e = date_max)
  /\ snd (get_all_transactions start_date (Some e) db) = db
  /\ fst (get_all_transactions start_date None db) <> OverflowError
  /\ snd (get_all_transactions start_date None db) = db.
Proof.
  unfold valid_date, get_all_transactions, date_plus_days, date_min.
  intros [Hlo Hhi].
  replace (1 <=? e + 1) with true by (symmetry; apply Z.leb_le; lia).
  simpl. destruct (e + 1 <=? date_max) eqn:E; simpl.
  - apply Z.leb_le in E.
    split; [split; [discriminate | intros ->; lia]|].
    repeat split. discriminate.
  - apply Z.leb_gt in E.
    split; [split; [intros _; lia | reflexivity]|].
    repeat split. discriminate.
Qed.

(** X18.  A window whose end date lies before its start date is empty:
    the query returns no transaction (and raises nothing). *)
Theorem get_all_transactions_inverted_window_is_empty
    (d e : date) db :
  valid_date e ->
  e < date_max ->
  e < d ->
  get_all_transactions (Some d) (Some e) db = (Returned [], db).
Proof.
  intros Hv Hlt Hinv. unfold get_all_transactions.
  rewrite (date_plus_one e Hv Hlt). rewrite filter_twice.
  rewrite filter_none; [reflexivity|].
  intros t _. apply andb_false_iff.
  destruct (midnight d <=? t_transaction_date t) eqn:E1; [|now left].
  right. apply Z.leb_le in E1. apply Z.ltb_ge.
  pose proof (midnight_mono (e + 1) d ltac:(lia)). lia.
Qed.
End HistoryEdges.

(** ** Table printing *)

Section TablePrinting.

Lemma length_append (s1 s2 : string) :
  String.length (s1 ++ s2) = (String.length s1 + String.length s2)%nat.
Proof. induction s1 as [|c s1 IH]; simpl; [reflexivity | now rewrite IH]. Qed.

Lemma length_repeat_string (c : ascii) (n : nat) :
  String.length (repeat_string c n) = n.
Proof. induction n as [|n IH]; simpl; [reflexivity | now rewrite IH]. Qed.

Lemma ljust_length (s : string) (w : nat) :
  String.length (ljust s w) = Nat.max (String.length s) w.
Proof.
  unfold ljust. rewrite length_append, length_repeat_string. lia.
Qed.

Lemma concat_length (sep : string) (l : list string) :
  String.length (String.concat sep l)
  = joined_length (String.length sep) (map String.length l).
Proof.
  induction l as [|x l IH]; [reflexivity|].
  destruct l as [|y l]; [reflexivity|].
  cbn [String.concat map joined_length] in *.
  rewrite !length_append, IH. lia.
Qed.

Lemma Forall2_le_refl (l : list nat) : Forall2 le l l.
Proof. induction l; constructor; auto. Qed.

Lemma Forall2_le_trans (l1 l2 l3 : list nat) :
  Forall2 le l1 l2 -> Forall2 le l2 l3 -> Forall2 le l1 l3.
Proof.
  intros H. revert l3. induction H as [|x y l1 l2 Hxy H IH]; intros l3 H3;
    inversion H3; subst; constructor; [lia | now apply IH].
Qed.

Lemma Forall2_le_nth (l1 l2 : list nat) (i w : nat) :
  Forall2 le l1 l2 -> nth_error l1 i = Some w ->
  exists w', nth_error l2 i = Some w' /\ (w <= w')%nat.
Proof.
  intros H. revert i. induction H as [|x y l1 l2 Hxy H IH]; intros i Hi.
  - now destruct i.
  - destruct i as [|i]; simpl in *.
    + injection Hi as <-. now exists y.
    + now apply IH.
Qed.

Lemma assign_max (l : list nat) (i w c : nat) :
  nth_error l i = Some w ->
  exists l',
    assign l i (Nat.max w c) = Some l'
    /\ Forall2 le l l'
    /\ exists w', nth_error l' i = Some w' /\ (c <= w')%nat.
Proof.
  revert i. induction l as [|x l IH]; intros i Hi; [now destruct i|].
  destruct i as [|i]; simpl in *.
  - injection Hi as ->. eexists. split; [reflexivity|]. split.
    + constructor; [lia | apply Forall2_le_refl].
    + eexists. split; [reflexivity | lia].
  - destruct (IH i Hi) as (l' & Ha & Hle & w' & Hn & Hc).
    rewrite Ha. simpl. eexists. split; [reflexivity|]. split.
    + constructor; [lia | exact Hle].
    + now exists w'.
Qed.

Lemma widen_row_fits (cells : list string) :
  forall i ws,
    (i + List.length cells <= List.length ws)%nat ->
    exists ws',
      widen_row cells i ws = Some ws'
      /\ Forall2 le ws ws'
      /\ forall k cell, nth_error cells k = Some cell ->
           exists w, nth_error ws' (i + k) = Some w
                     /\ (String.length cell <= w)%nat.
Proof.
  induction cells as [|cell rest IH]; intros i ws Hfit; simpl in *.
  - exists ws. split; [reflexivity|]. split; [apply Forall2_le_refl|].
    intros k c Hk. now destruct k.
  - destruct (nth_error ws i) as [w|] eqn:Hw;
      [|apply nth_error_None in Hw; lia].
    destruct (assign_max ws i w (String.length cell) Hw)
      as (ws1 & Ha & Hle1 & w1 & Hn1 & Hc1).
    rewrite Ha.
    pose proof (Forall2_length Hle1) as Hlen.
    destruct (IH (S i) ws1 ltac:(lia)) as (ws' & Hr & Hle2 & Hcells).
    exists ws'. split; [exact Hr|].
    split; [eapply Forall2_le_trans; eassumption|].
    intros k c Hk. destruct k as [|k]; simpl in Hk.
    + injection Hk as <-. rewrite Nat.add_0_r.
      destruct (Forall2_le_nth _ _ _ _ Hle2 Hn1) as (w' & Hn' & Hw').
      exists w'. split; [exact Hn' | lia].
    + destruct (Hcells k c Hk) as (w' & Hn' & Hw').
      exists w'. split; [|exact Hw'].
      now replace (i + S k)%nat with (S i + k)%nat by lia.
Qed.

Lemma widen_row_overflow (cells : list string) :
  forall i ws,
    (i <= List.length ws)%nat ->
    (List.length ws < i + List.length cells)%nat ->
    widen_row cells i ws = None.
Proof.
  induction cells as [|cell rest IH]; intros i ws Hi Hover; simpl in *;
    [lia|].
  destruct (nth_error ws i) as [w|] eqn:Hw; [|reflexivity].
  assert (Hlt : (i < List.length ws)%nat)
    by (apply nth_error_Some; congruence).
  destruct (assign_max ws i w (String.length cell) Hw)
    as (ws1 & Ha & Hle1 & _).
  rewrite Ha. pose proof (Forall2_length Hle1) as Hlen.
  apply IH; lia.
Qed.

Lemma widen_rows_fits (rows : list (list string)) :
  forall ws,
    (forall row, In row rows ->
                 (List.length row <= List.length ws)%nat) ->
    exists ws',
      widen_rows rows ws = Some ws'
      /\ Forall2 le ws ws'
      /\ forall row, In row rows ->
         forall k cell, nth_error row k = Some cell ->
           exists w, nth_error ws' k = Some w
                     /\ (String.length cell <= w)%nat.
Proof.
  induction rows as [|row rest IH]; intros ws Hfit; simpl.
  - exists ws. split; [reflexivity|]. split; [apply Forall2_le_refl|].
    intros row [].
  - destruct (widen_row_fits row 0 ws) as (ws1 & Hr & Hle1 & Hcells).
    { simpl. apply Hfit. now left. }
    rewrite Hr. pose proof (Forall2_length Hle1) as Hlen.
    destruct (IH ws1) as (ws' & Hrs & Hle2 & Hrest).
    { intros r Hr'. rewrite <- Hlen. apply Hfit. now right. }
    exists ws'. split; [exact Hrs|].
    split; [eapply Forall2_le_trans; eassumption|].
    intros r [<-|Hin] k c Hk.
    + destruct (Hcells k c Hk) as (w1 & Hn1 & Hc1). simpl in Hn1.
      destruct (Forall2_le_nth _ _ _ _ Hle2 Hn1) as (w' & Hn' & Hw').
      exists w'. split; [exact Hn' | lia].
    + now apply (Hrest r Hin).
Qed.

Lemma widen_rows_overflow (rows : list (list string)) :
  forall ws,
    (exists row, In row rows
                 /\ (List.length ws < List.length row)%nat) ->
    widen_rows rows ws = None.
Proof.
  induction rows as [|row rest IH]; intros ws (r & Hin & Hlong); simpl;
    [contradiction|].
  destruct (le_lt_dec (List.length row) (List.length ws)) as [Hfit|Hover].
  - destruct (widen_row_fits row 0 ws Hfit) as (ws1 & Hr & Hle1 & _).
    rewrite Hr. pose proof (Forall2_length Hle1) as Hlen.
    apply IH. exists r. destruct Hin as [->|Hin]; [lia|].
    split; [exact Hin | lia].
  - rewrite widen_row_overflow; [reflexivity | lia | simpl; lia].
Qed.

Lemma skipn_nth_error {A : Type} (l : list A) (i : nat) (x : A) :
  nth_error l i = Some x -> skipn i l = x :: skipn (S i) l.
Proof.
  revert i. induction l as [|y l IH]; intros i Hi; [now destruct i|].
  destruct i as [|i]; simpl in *.
  - now injection Hi as ->.
  - now apply IH.
Qed.

Lemma format_cells_fits (cells : list string) :
  forall i ws,
    (forall k cell, nth_error cells k = Some cell ->
       exists w, nth_error ws (i + k) = Some w
                 /\ (String.length cell <= w)%nat) ->
    exists padded,
      format_cells cells i ws = Some padded
      /\ map String.length padded
         = firstn (List.length cells) (skipn i ws).
Proof.
  induction cells as [|cell rest IH]; intros i ws Hfit; simpl.
  - exists []. split; reflexivity.
  - destruct (Hfit 0%nat cell eq_refl) as (w & Hw & Hc).
    rewrite Nat.add_0_r in Hw. rewrite Hw.
    destruct (IH (S i) ws) as (padded & Hp & Hlen).
    { intros k c Hk. destruct (Hfit (S k) c Hk) as (w' & Hw' & Hc').
      exists w'. split; [|exact Hc'].
      now replace (S i + k)%nat with (i + S k)%nat by lia. }
    rewrite Hp. simpl. eexists. split; [reflexivity|].
    simpl. rewrite (skipn_nth_error ws i w Hw), <- Hlen.
    rewrite ljust_length. simpl. f_equal. lia.
Qed.

(** A row that fits the widths is formatted, and how long its line is
    depends only on the widths and on how many cells it has. *)
Lemma format_line_fits (cells : list string) (ws : list nat) :
  (forall k cell, nth_error cells k = Some cell ->
     exists w, nth_error ws k = Some w /\ (String.length cell <= w)%nat) ->
  exists line,
    format_line cells ws = Some line
    /\ String.length line
       = joined_length 3 (firstn (List.length cells) ws).
Proof.
  intros Hfit. unfold format_line.
  destruct (format_cells_fits cells 0 ws Hfit) as (padded & Hp & Hlen).
  rewrite Hp. simpl. eexists. split; [reflexivity|].
  rewrite concat_length, Hlen. reflexivity.
Qed.

Lemma echo_rows_fit (ws : list nat) (rows : list (list string)) :
  forall out,
    (forall row, In row rows ->
       forall k cell, nth_error row k = Some cell ->
         exists w, nth_error ws k = Some w
                   /\ (String.length cell <= w)%nat) ->
    exists lines,
      echo_rows rows ws out = Printed (out ++ map Plain lines)
      /\ Forall2 (fun row line =>
                    String.length line
                    = joined_length 3 (firstn (List.length row) ws))
                 rows lines.
Proof.
  induction rows as [|row rest IH]; intros out Hfit; simpl.
  - exists []. split; [now rewrite app_nil_r | constructor].
  - destruct (format_line_fits row ws (Hfit row (or_introl eq_refl)))
      as (line & Hl & Hlen).
    rewrite Hl.
    destruct (IH (out ++ [Plain line])) as (lines & He & Hall).
    { intros r Hr. apply Hfit. now right. }
    exists (line :: lines). split.
    + rewrite He, <- app_assoc. reflexivity.
    + now constructor.
Qed.

(** X19.  If some row has more cells than there are headers,
    [print_table] raises [IndexError] while it computes the column widths,
    before anything is echoed. *)
Theorem print_table_row_too_long_raises
    (headers : list string) (rows : list (list string)) :
  (exists row, In row rows
               /\ (List.length headers < List.length row)%nat) ->
  print_table headers rows = IndexError [].
Proof.
  intros Hlong. unfold print_table.
  destruct rows as [|row rest];
    [destruct Hlong as (r & [] & _)|].
  rewrite widen_rows_overflow; [reflexivity|].
  now rewrite length_map.
Qed.

Lemma format_cells_combine (cells : list string) :
  forall i ws,
    (i + List.length cells <= List.length ws)%nat ->
    format_cells cells i ws
    = Some (map (fun p => ljust (fst p) (snd p))
                (combine cells (skipn i ws))).
Proof.
  induction cells as [|cell rest IH]; intros i ws Hfit; simpl in *;
    [reflexivity|].
  destruct (nth_error ws i) as [w|] eqn:Hw;
    [|apply nth_error_None in Hw; lia].
  rewrite (IH (S i) ws) by lia.
  rewrite (skipn_nth_error ws i w Hw). reflexivity.
Qed.

Lemma format_line_justified (cells : list string) (ws : list nat) :
  (List.length cells <= List.length ws)%nat ->
  format_line cells ws = Some (justified_line cells ws).
Proof.
  intros Hfit. unfold format_line, justified_line.
  now rewrite format_cells_combine by (simpl; lia).
Qed.

Lemma echo_rows_justified (ws : list nat) (rows : list (list string)) :
  forall out,
    (forall row, In row rows ->
                 (List.length row <= List.length ws)%nat) ->
    echo_rows rows ws out
    = Printed (out ++ map (fun row => Plain (justified_line row ws)) rows).
Proof.
  induction rows as [|row rest IH]; intros out Hfit; simpl.
  - now rewrite app_nil_r.
  - rewrite format_line_justified by (apply Hfit; now left).
    rewrite IH by (intros r Hr; apply Hfit; now right).
    now rewrite <- app_assoc.
Qed.

(** A width is never made up: after an assignment of a maximum, each entry
    is the old entry or the length just seen at that index. *)
Lemma assign_attained (l : list nat) :
  forall i w c l',
    nth_error l i = Some w ->
    assign l i (Nat.max w c) = Some l' ->
    forall j w', nth_error l' j = Some w' ->
      nth_error l j = Some w' \/ (j = i /\ w' = c).
Proof.
  induction l as [|x l IH]; intros i w c l' Hi Ha j w' Hj;
    [now destruct i|].
  destruct i as [|i]; simpl in *.
  - injection Hi as ->. injection Ha as <-.
    destruct j as [|j]; simpl in *; [|now left].
    injection Hj as <-.
    destruct (Nat.max_spec w c) as [[_ ->]|[_ ->]]; [now right | now left].
  - destruct (assign l i (Nat.max w c)) as [l1|] eqn:E; [|discriminate].
    simpl in Ha. injection Ha as <-.
    destruct j as [|j]; simpl in *; [now left|].
    destruct (IH i w c l1 Hi E j w' Hj) as [H|[-> ->]];
      [now left | now right].
Qed.

Lemma widen_row_attained (cells : list string) :
  forall i ws ws',
    widen_row cells i ws = Some ws' ->
    forall j w', nth_error ws' j = Some w' ->
      nth_error ws j = Some w'
      \/ exists k cell,
           nth_error cells k = Some cell
           /\ j = (i + k)%nat /\ w' = String.length cell.
Proof.
  induction cells as [|cell rest IH]; intros i ws ws' Hw j w' Hj;
    simpl in Hw.
  - injection Hw as <-. now left.
  - destruct (nth_error ws i) as [w|] eqn:Hi; [|discriminate].
    destruct (assign ws i (Nat.max w (String.length cell))) as [ws1|] eqn:Ha;
      [|discriminate].
    destruct (IH (S i) ws1 ws' Hw j w' Hj) as [H|(k & c & Hk & -> & ->)].
    + destruct (assign_attained ws i w _ ws1 Hi Ha j w' H) as [H'|[-> ->]];
        [now left|].
      right. exists 0%nat, cell. repeat split. lia.
    + right. exists (S k), c. repeat split; [exact Hk | lia].
Qed.

Lemma widen_rows_attained (rows : list (list string)) :
  forall ws ws',
    widen_rows rows ws = Some ws' ->
    forall j w', nth_error ws' j = Some w' ->
      nth_error ws j = Some w'
      \/ exists row cell,
           In row rows /\ nth_error row j = Some cell
           /\ w' = String.length cell.
Proof.
  induction rows as [|row rest IH]; intros ws ws' Hw j w' Hj; simpl in Hw.
  - injection Hw as <-. now left.
  - destruct (widen_row row 0 ws) as [ws1|] eqn:Hr; [|discriminate].
    destruct (IH ws1 ws' Hw j w' Hj) as [H|(r & c & Hin & Hc & ->)].
    + destruct (widen_row_attained row 0 ws ws1 Hr j w' H)
        as [H'|(k & c & Hk & -> & ->)]; [now left|].
      right. exists row, c. repeat split; [now left | exact Hk].
    + right. exists r, c. repeat split; [now right | exact Hc].
Qed.

(** X20.  If the table has rows and no row has more cells than there are
    headers, [print_table] returns after echoing exactly this: the header
    line styled cyan and bold, a cyan rule of dashes as long as the header
    line, and one plain line per row, in order.  The header line and each
    row line are the cells left-justified to the column widths and joined
    by [" | "]; there is one width per header, and the width of a column
    is the greatest length among its header and the cells the rows have in
    that column.  Every row that has as many cells as there are headers
    gives a line exactly as long as the header line, so the columns line
    up. *)
Theorem print_table_lines_up
    (headers : list string) (rows : list (list string)) :
  rows <> [] ->
  (forall row, In row rows ->
               (List.length row <= List.length headers)%nat) ->
  exists column_widths,
    print_table headers rows
    = Printed
        (Cyan true (justified_line headers column_widths)
         :: Cyan false
              (repeat_string "-"
                 (String.length (justified_line headers column_widths)))
         :: map (fun row => Plain (justified_line row column_widths)) rows)
    /\ List.length column_widths = List.length headers
    /\ (forall k w, nth_error column_widths k = Some w ->
          (forall h, nth_error headers k = Some h ->
                     (String.length h <= w)%nat)
          /\ (forall row cell, In row rows -> nth_error row k = Some cell ->
                               (String.length cell <= w)%nat)
          /\ ((exists h, nth_error headers k = Some h
                         /\ w = String.length h)
              \/ exists row cell,
                   In row rows /\ nth_error row k = Some cell
                   /\ w = String.length cell))
    /\ (forall row, In row rows ->
          List.length row = List.length headers ->
          String.length (justified_line row column_widths)
          = String.length (justified_line headers column_widths)).
Proof.
  intros Hne Hfit. unfold print_table.
  destruct rows as [|row0 rest]; [contradiction|].
  destruct (widen_rows_fits (row0 :: rest) (map String.length headers))
    as (ws & Hw & Hle & Hcells).
  { intros r Hr. rewrite length_map. now apply Hfit. }
  rewrite Hw.
  assert (Hlen : List.length ws = List.length headers)
    by (rewrite <- (Forall2_length Hle); apply length_map).
  assert (Hheaders : forall k h, nth_error headers k = Some h ->
            exists w, nth_error ws k = Some w
                      /\ (String.length h <= w)%nat).
  { intros k h Hk.
    apply (Forall2_le_nth _ _ k (String.length h) Hle).
    now rewrite nth_error_map, Hk. }
  assert (Hwidth : forall cells,
            (forall k cell, nth_error cells k = Some cell ->
               exists w, nth_error ws k = Some w
                         /\ (String.length cell <= w)%nat) ->
            (List.length cells <= List.length ws)%nat ->
            String.length (justified_line cells ws)
            = joined_length 3 (firstn (List.length cells) ws)).
  { intros cells Hc Hl.
    destruct (format_line_fits cells ws Hc) as (line & Hline & Hll).
    rewrite format_line_justified in Hline by exact Hl.
    injection Hline as <-. exact Hll. }
  exists ws.
  rewrite format_line_justified by lia.
  rewrite echo_rows_justified
    by (intros r Hr; rewrite Hlen; now apply Hfit).
  split; [reflexivity|].
  split; [exact Hlen|].
  split.
  { intros k w Hk. split; [|split].
    - intros h Hh. destruct (Hheaders k h Hh) as (w' & Hw' & Hge).
      rewrite Hk in Hw'. injection Hw' as <-. exact Hge.
    - intros row cell Hin Hc.
      destruct (Hcells row Hin k cell Hc) as (w' & Hw' & Hge).
      rewrite Hk in Hw'. injection Hw' as <-. exact Hge.
    - destruct (widen_rows_attained _ _ _ Hw k w Hk) as [H|H];
        [|now right].
      left. rewrite nth_error_map in H.
      destruct (nth_error headers k) as [h|]; [|discriminate].
      injection H as <-. now exists h. }
  intros row Hin Hrow.
  rewrite (Hwidth row (Hcells row Hin)) by lia.
  rewrite (Hwidth headers Hheaders) by lia.
  now rewrite Hrow.
Qed.
End TablePrinting.

(** ** A transfer and its way back *)

Section RoundTrip.
Context {price : Type}.
Implicit Types (db : @DB price) (s src e : @Stock price)
               (tbl : list (@Stock price)).

Lemma add_quantity_zero i tbl : add_quantity i 0 tbl = tbl.
Proof.
  unfold add_quantity, update_row. rewrite <- (map_id tbl) at 2.
  apply map_ext. intros s. destruct (s_id s =? i); [|reflexivity].
  rewrite Z.add_0_r. apply with_own_quantity.
Qed.

Lemma add_quantity_app i d tbl tbl' :
  add_quantity i d (tbl ++ tbl')
  = add_quantity i d tbl ++ add_quantity i d tbl'.
Proof. unfold add_quantity, update_row. apply map_app. Qed.

Lemma add_quantity_absent i d tbl :
  ~ In i (map s_id tbl) -> add_quantity i d tbl = tbl.
Proof. apply update_row_absent. Qed.

Lemma find_lot_at_app t l tbl tbl' :
  find_lot_at t l (tbl ++ tbl')
  = match find_lot_at t l tbl with
    | Some s => Some s
    | None => find_lot_at t l tbl'
    end.
Proof.
  unfold find_lot_at. induction tbl as [|x tl IH]; simpl; [reflexivity|].
  now destruct ((s_tree_type_id x =? t) && (s_location_id x =? l)).
Qed.

(** Updating quantities does not change which lot is first of a type at
    a location. *)
Lemma find_lot_at_add_quantity t l i d tbl :
  find_lot_at t l (add_quantity i d tbl)
  = option_map (fun s => if s_id s =? i
                         then with_quantity (s_quantity s + d) s else s)
               (find_lot_at t l tbl).
Proof.
  unfold find_lot_at, add_quantity, update_row.
  induction tbl as [|x tl IH]; simpl; [reflexivity|].
  destruct (s_id x =? i) eqn:E; simpl;
    destruct ((s_tree_type_id x =? t) && (s_location_id x =? l));
    simpl; rewrite ?E; auto.
Qed.

(** X21.  A transfer can be undone.  Let the source lot be the first lot
    of its type at its own location, and let no quantity in the store be
    negative.  After moving a quantity to another location and then moving
    the same quantity from the lot that received it back to the source's
    location, both transfers have gone through and the lot table is the
    one before the first transfer -- followed, if the first transfer had to
    create the destination lot, by that lot holding 0. *)
Theorem move_there_and_back
    (now1 now2 : datetime) (from to q : Z) db src :
  stock_wf db ->
  stock_nonneg db ->
  get_stock_by_id from db = Some src ->
  q <= s_quantity src ->
  to <> s_location_id src ->
  find_lot_at (s_tree_type_id src) (s_location_id src) (stock db)
  = Some src ->
  exists src1 dst1 db1 src2 dst2 db2,
    move_stock_quantity now1 from to q db = (Some (src1, dst1), db1)
    /\ move_stock_quantity now2 (s_id dst1) (s_location_id src) q db1
       = (Some (src2, dst2), db2)
    /\ dst2 = src
    /\ (stock db2 = stock db
        \/ (find_lot_at (s_tree_type_id src) to (stock db) = None
            /\ stock db2 = stock db ++ [with_quantity 0 dst1])).
Proof.
  intros Hk Hn Hsrc Hq Hto Hfirst.
  destruct (get_stock_by_id_In _ _ _ Hsrc) as [Hin Hfrom].
  pose proof Hsrc as Hl. unfold get_stock_by_id in Hl.
  set (src1 := with_quantity (s_quantity src - q) src).
  assert (Hback : with_quantity (s_quantity src1 + q) src1 = src).
  { unfold src1. destruct src. unfold with_quantity. simpl. f_equal. lia. }
  destruct (find_lot_at (s_tree_type_id src) to (stock db)) as [e|] eqn:He.
  - (* the destination lot was there *)
    destruct (find_lot_at_Some _ _ _ _ He) as (Hine & Hte & Hle).
    assert (Hid : s_id e <> from).
    { intros Hid. apply Hto.
      assert (e = src)
        by (apply (same_id_same_lot db); [assumption..|congruence]).
      subst e. now symmetry. }
    assert (Hqe : 0 <= s_quantity e).
    { unfold stock_nonneg in Hn. rewrite Forall_forall in Hn.
      now apply Hn. }
    pose proof (move_onto_existing now1 from to q db src e Hk Hsrc Hq He Hid)
      as Hm1. fold src1 in Hm1.
    set (dst1 := with_quantity (s_quantity e + q) e) in *.
    set (tbl1 := add_quantity from (- q)
                   (add_quantity (s_id e) q (stock db))) in *.
    set (db1 := set_stock db tbl1) in *.
    assert (Hk1 : stock_wf db1)
      by (unfold stock_wf, db1, tbl1; simpl; now do 2 apply add_quantity_wf).
    assert (Hs1 : get_stock_by_id (s_id dst1) db1 = Some dst1).
    { unfold get_stock_by_id, db1, tbl1. simpl.
      rewrite !lookup_add_quantity.
      replace (s_id e =? from) with false
        by (symmetry; apply Z.eqb_neq; congruence).
      rewrite Z.eqb_refl, (lookup_stock_unique _ e Hk Hine). reflexivity. }
    assert (Hf1 : find_lot_at (s_tree_type_id dst1) (s_location_id src)
                    (stock db1) = Some src1).
    { unfold db1, tbl1. simpl. rewrite Hte.
      rewrite !find_lot_at_add_quantity, Hfirst. simpl.
      replace (s_id src =? s_id e) with false
        by (symmetry; apply Z.eqb_neq; congruence).
      rewrite Hfrom, Z.eqb_refl. reflexivity. }
    pose proof (move_onto_existing now2 (s_id dst1) (s_location_id src) q
                  db1 dst1 src1 Hk1 Hs1 ltac:(simpl; lia) Hf1
                  ltac:(simpl; congruence)) as Hm2.
    do 6 eexists. split; [exact Hm1|]. split; [exact Hm2|].
    split; [exact Hback|].
    left. unfold db1, tbl1. simpl. rewrite Hfrom.
    rewrite add_quantity_twice.
    replace (- q + q) with 0 by lia.
    rewrite add_quantity_zero. apply add_quantity_cancel.
  - (* the destination lot was created *)
    pose proof (move_onto_new now1 from to q db src Hk Hsrc Hq He) as Hm1.
    cbv zeta in Hm1. fold src1 in Hm1.
    set (n := {| s_id := next_id s_id (stock db);
                 s_tree_type_id := s_tree_type_id src;
                 s_location_id := to;
                 s_quantity := q;
                 s_date_added := now1;
                 s_cost_per_seedling := s_cost_per_seedling src |}) in *.
    set (tbl1 := add_quantity from (- q) (stock db) ++ [n]) in *.
    set (db1 := set_stock db tbl1) in *.
    assert (Hlt : from < s_id n).
    { simpl. apply next_id_above. rewrite <- Hfrom. now apply in_map. }
    assert (Hfresh : ~ In (s_id n) (map s_id (stock db)))
      by apply next_id_fresh.
    assert (Hk1 : stock_wf db1).
    { unfold stock_wf, db1, tbl1. simpl.
      apply NoDup_ids_snoc; [now apply add_quantity_wf|].
      unfold add_quantity.
      now rewrite update_row_ids by apply add_quantity_only. }
    assert (Hs1 : get_stock_by_id (s_id n) db1 = Some n).
    { unfold get_stock_by_id, db1, tbl1. cbn [stock set_stock].
      rewrite lookup_stock_app, lookup_add_quantity.
      replace (s_id n =? from) with false
        by (symmetry; apply Z.eqb_neq; lia).
      replace (lookup_stock (s_id n) (stock db)) with (@None (@Stock price))
        by (symmetry; apply lookup_fresh_None).
      unfold lookup_stock. cbn [find]. now rewrite Z.eqb_refl. }
    assert (Hf1 : find_lot_at (s_tree_type_id n) (s_location_id src)
                    (stock db1) = Some src1).
    { unfold db1, tbl1. cbn [stock set_stock s_tree_type_id n].
      rewrite find_lot_at_app, find_lot_at_add_quantity, Hfirst. simpl.
      rewrite Hfrom, Z.eqb_refl. reflexivity. }
    assert (Hne1 : s_id src1 <> s_id n)
      by (change (s_id src1) with (s_id src); lia).
    pose proof (move_onto_existing now2 (s_id n) (s_location_id src) q
                  db1 n src1 Hk1 Hs1 (Z.le_refl q) Hf1 Hne1) as Hm2.
    do 6 eexists. split; [exact Hm1|]. split; [exact Hm2|].
    split; [exact Hback|].
    right. split; [reflexivity|].
    unfold db1, tbl1. cbn [stock set_stock].
    change (s_id src1) with (s_id src). rewrite Hfrom.
    rewrite !add_quantity_app, add_quantity_twice.
    replace (- q + q) with 0 by lia. rewrite add_quantity_zero.
    rewrite (add_quantity_absent (s_id n) (- q) (stock db) Hfresh).
    f_equal.
    unfold add_quantity, update_row. cbn [map].
    replace (s_id n =? from) with false by (symmetry; apply Z.eqb_neq; lia).
    cbn [map]. rewrite Z.eqb_refl.
    unfold with_quantity. simpl. do 2 f_equal. lia.
Qed.
End RoundTrip.

(** ** The properties on the sample stores *)

Import Samples.

Ltac prove_wf :=
  unfold stock_wf; simpl; repeat constructor; simpl; intuition discriminate.

Ltac prove_le := apply Z.leb_le; reflexivity.
Ltac prove_lt := apply Z.ltb_lt; reflexivity.

(** The sale of the specification's example: 12 out of lot A (10, day 1)
    and lot B (5, day 2) drains A and leaves 3 in B. *)
Example sale_of_twelve :
  record_sale Z.mul (midnight 3) 1 12 two_lots =
  (Some (sale 1 1 12 250 (midnight 3)),
   store [lot 1 1 1 3 (midnight 2) 7; lot 2 1 1 0 (midnight 1) 7]
         [sale 1 1 12 250 (midnight 3)]).
Proof. reflexivity. Qed.

(** The transfer of the specification's example: 4 out of a lot of 10 to a
    location that holds a lot of 3 gives 6 and 7, and no new row. *)
Example move_of_four :
  move_stock_quantity (midnight 3) 1 2 4 two_places =
  (Some (lot 1 1 1 6 (midnight 1) 7, lot 2 1 2 7 (midnight 2) 9),
   store [lot 1 1 1 6 (midnight 1) 7; lot 2 1 2 7 (midnight 2) 9] []).
Proof. reflexivity. Qed.

(** [update_stock_quantity] writes whatever quantity it is given. *)
Example update_accepts_a_negative_quantity :
  snd (update_stock_quantity 1 (-5) one_lot) =
  store [lot 1 1 1 (-5) (midnight 1) 7] [].
Proof. reflexivity. Qed.

(** On the last representable day the day after does not exist and the
    query raises. *)
Example history_to_last_day_raises :
  get_all_transactions None (Some date_max) history = (OverflowError, history).
Proof. reflexivity. Qed.

Lemma record_sale_consumes_oldest_first_witness :
  stock_wf two_lots
  /\ get_tree_type_by_id 1 two_lots = Some oak
  /\ 0 <= 12
  /\ 12 <= total_available 1 two_lots
  /\ exists tx db',
       record_sale Z.mul (midnight 3) 1 12 two_lots = (Some tx, db')
       /\ transactions db' = [tx]
       /\ t_total_amount tx = 3000
       /\ quantity_of 2 (stock db') = 0
       /\ quantity_of 1 (stock db') = 3.
Proof.
  assert (Hk : stock_wf two_lots) by prove_wf.
  assert (Htt : get_tree_type_by_id 1 two_lots = Some oak) by reflexivity.
  assert (H0 : 0 <= 12) by lia.
  assert (Hq : 12 <= total_available 1 two_lots) by prove_le.
  destruct (record_sale_consumes_oldest_first
              Z.mul (midnight 3) 1 12 two_lots oak Hk Htt H0 Hq)
    as (tx & db' & Heq & _).
  do 4 (split; [assumption|]).
  exists tx, db'. split; [exact Heq|].
  vm_compute in Heq. injection Heq as <- <-.
  repeat split; reflexivity.
Defined.

Lemma record_sale_insufficient_is_noop_witness :
  total_available 1 two_lots < 16
  /\ record_sale Z.mul (midnight 3) 1 16 two_lots = (None, two_lots).
Proof.
  assert (Hq : total_available 1 two_lots < 16) by prove_lt.
  split; [exact Hq|].
  exact (record_sale_insufficient_is_noop Z.mul (midnight 3) 1 16 two_lots Hq).
Defined.

Lemma record_sale_unknown_type_is_noop_witness :
  get_tree_type_by_id 7 two_lots = None
  /\ record_sale Z.mul (midnight 3) 7 1 two_lots = (None, two_lots).
Proof.
  assert (Hn : get_tree_type_by_id 7 two_lots = None) by reflexivity.
  split; [exact Hn|].
  exact (record_sale_unknown_type_is_noop Z.mul (midnight 3) 7 1 two_lots Hn).
Defined.

Lemma move_stock_conserves_totals_witness :
  stock_wf two_places
  /\ get_stock_by_id 1 two_places = Some (lot 1 1 1 10 (midnight 1) 7)
  /\ 4 <= s_quantity (lot 1 1 1 10 (midnight 1) 7)
  /\ exists src' dst' db',
       move_stock_quantity (midnight 3) 1 2 4 two_places
       = (Some (src', dst'), db')
       /\ total_of_type 1 (stock db') = total_of_type 1 (stock two_places)
       /\ s_quantity src' = 6
       /\ s_quantity dst' = 7.
Proof.
  assert (Hk : stock_wf two_places) by prove_wf.
  assert (Hs : get_stock_by_id 1 two_places
               = Some (lot 1 1 1 10 (midnight 1) 7)) by reflexivity.
  assert (Hq : 4 <= s_quantity (lot 1 1 1 10 (midnight 1) 7)) by prove_le.
  destruct (move_stock_conserves_totals
              (midnight 3) 1 2 4 two_places _ Hk Hs Hq)
    as (src' & dst' & db' & Heq & Htot & _).
  do 3 (split; [assumption|]).
  exists src', dst', db'. split; [exact Heq|]. split; [apply Htot|].
  vm_compute in Heq. injection Heq as <- <- <-.
  split; reflexivity.
Defined.

Lemma move_stock_refused_is_noop_witness :
  (get_stock_by_id 1 two_places = None
   \/ exists src, get_stock_by_id 1 two_places = Some src
                  /\ s_quantity src < 11)
  /\ move_stock_quantity (midnight 3) 1 2 11 two_places = (None, two_places).
Proof.
  assert (H : get_stock_by_id 1 two_places = None
              \/ exists src : @Stock Z,
                   get_stock_by_id 1 two_places = Some src
                   /\ s_quantity src < 11).
  { right. exists (lot 1 1 1 10 (midnight 1) 7).
    split; [reflexivity | prove_lt]. }
  split; [exact H|].
  exact (move_stock_refused_is_noop (midnight 3) 1 2 11 two_places H).
Defined.


Lemma quantities_stay_nonneg_and_lots_persist_witness :
  stock_wf (store [] [])
  /\ stock_nonneg (store [] [])
  /\ Forall op_pre season
  /\ stock_nonneg (run Z.mul season (store [] []))
  /\ stock_wf (run Z.mul season (store [] []))
  /\ map s_quantity (stock (run Z.mul season (store [] []))) = [0; 2; 1].
Proof.
  assert (Hk : stock_wf (store [] [])) by prove_wf.
  assert (Hn : stock_nonneg (store [] [])) by constructor.
  assert (Hp : Forall op_pre season)
    by (unfold season; repeat constructor; simpl; lia).
  destruct (quantities_stay_nonneg_and_lots_persist
              Z.mul season (store [] []) Hk Hn Hp) as (H1 & H2 & _).
  repeat split; try assumption.
Defined.

Lemma get_all_transactions_window_witness :
  (forall e, Some 12 = Some e -> valid_date e /\ e < date_max)
  /\ exists l,
       get_all_transactions (Some 10) (Some 12) history = (Returned l, history)
       /\ map t_id l = [2; 1].
Proof.
  assert (H : forall e, Some 12 = Some e -> valid_date e /\ e < date_max).
  { intros e He. injection He as <-.
    unfold valid_date, date_min, date_max. lia. }
  destruct (get_all_transactions_window (Some 10) (Some 12) history H)
    as (l & Heq & _).
  split; [exact H|]. exists l. split; [exact Heq|].
  vm_compute in Heq. injection Heq as <-. reflexivity.
Defined.

(** C3 as stated fails when a lot is moved to the location it is at and is
    the first lot of its type there: the transfer succeeds, yet the source
    lot still holds 10, not 10 - 4. *)
Lemma move_onto_own_location_keeps_source :
  ~ (forall src,
       get_stock_by_id 1 one_lot = Some src ->
       0 < 4 <= s_quantity src ->
       exists src' dst' db',
         move_stock_quantity (midnight 3) 1 1 4 one_lot
         = (Some (src', dst'), db')
         /\ quantity_of 1 (stock db') = s_quantity src - 4).
Proof.
  intros H.
  destruct (H (lot 1 1 1 10 (midnight 1) 7) eq_refl)
    as (src' & dst' & db' & Heq & Hq).
  - simpl. lia.
  - vm_compute in Heq. injection Heq as <- <- <-. discriminate Hq.
Qed.


(** ** The further properties on the sample stores *)

Lemma record_sale_accepts_nonpositive_quantity_witness :
  get_tree_type_by_id 1 two_lots = Some oak
  /\ -3 <= 0
  /\ exists tx,
       fst (record_sale Z.mul (midnight 3) 1 (-3) two_lots) = Some tx
       /\ stock (snd (record_sale Z.mul (midnight 3) 1 (-3) two_lots))
          = stock two_lots
       /\ t_total_amount tx = -750.
Proof.
  assert (Htt : get_tree_type_by_id 1 two_lots = Some oak) by reflexivity.
  assert (Hq : -3 <= 0) by lia.
  destruct (record_sale_accepts_nonpositive_quantity
              Z.mul (midnight 3) 1 (-3) two_lots oak Htt Hq)
    as (tx & Heq & _ & Htot).
  do 2 (split; [assumption|]).
  exists tx. rewrite Heq. repeat split. exact Htot.
Defined.

Lemma transaction_ids_stay_distinct_witness :
  NoDup (map t_id (transactions history))
  /\ NoDup (map t_id (transactions (run Z.mul deliveries history))).
Proof.
  assert (Hk : NoDup (map t_id (transactions history)))
    by (simpl; repeat constructor; simpl; intuition discriminate).
  split; [exact Hk|].
  exact (transaction_ids_stay_distinct Z.mul deliveries history Hk).
Defined.

Lemma unregistered_type_never_sells_witness :
  get_tree_type_by_id 7 one_lot = None
  /\ total_available 7 (run Z.mul stray_lots one_lot) = 15
  /\ record_sale Z.mul (midnight 3) 7 1 (run Z.mul stray_lots one_lot)
     = (None, run Z.mul stray_lots one_lot).
Proof.
  assert (Hn : get_tree_type_by_id 7 one_lot = None) by reflexivity.
  split; [exact Hn|]. split; [reflexivity|].
  exact (unregistered_type_never_sells
           Z.mul stray_lots (midnight 3) 7 1 one_lot Hn).
Defined.

Lemma added_stock_can_be_sold_witness :
  get_tree_type_by_id 1 one_lot = Some oak
  /\ 0 < 5
  /\ 5 <= 5
  /\ exists tx,
       fst (record_sale Z.mul (midnight 3) 1 5
              (snd (add_stock_entry (midnight 2) 1 2 5 7 one_lot)))
       = Some tx
       /\ t_quantity_sold tx = 5.
Proof.
  assert (Htt : get_tree_type_by_id 1 one_lot = Some oak) by reflexivity.
  assert (H0 : 0 < 5) by lia.
  assert (Hq : 5 <= 5) by lia.
  destruct (added_stock_can_be_sold
              Z.mul (midnight 2) (midnight 3) 1 2 5 5 7 one_lot oak Htt H0 Hq)
    as (tx & Heq & Hsold & _).
  do 3 (split; [assumption|]).
  exists tx. now split.
Defined.

Lemma record_sale_takes_from_its_type_only_witness :
  stock_wf two_lots
  /\ get_tree_type_by_id 1 two_lots = Some oak
  /\ 0 <= 12
  /\ 12 <= total_available 1 two_lots
  /\ total_of_type 1
       (stock (snd (record_sale Z.mul (midnight 3) 1 12 two_lots)))
     = total_of_type 1 (stock two_lots) - 12.
Proof.
  assert (Hk : stock_wf two_lots) by prove_wf.
  assert (Htt : get_tree_type_by_id 1 two_lots = Some oak) by reflexivity.
  assert (H0 : 0 <= 12) by lia.
  assert (Hq : 12 <= total_available 1 two_lots) by prove_le.
  do 4 (split; [assumption|]).
  exact (record_sale_takes_from_its_type_only
           Z.mul (midnight 3) 1 12 1 two_lots oak Hk Htt H0 Hq).
Defined.

Lemma stock_on_hand_plus_sold_balances_witness :
  stock_wf (store [] [])
  /\ stock_nonneg (store [] [])
  /\ Forall op_pre deliveries
  /\ Forall (fun op => is_update op = false) deliveries
  /\ total_quantity (stock (run Z.mul deliveries (store [] [])))
     + units_sold (run Z.mul deliveries (store [] []))
     = 15.
Proof.
  assert (Hk : stock_wf (store [] [])) by prove_wf.
  assert (Hn : stock_nonneg (store [] [])) by constructor.
  assert (Hp : Forall op_pre deliveries)
    by (unfold deliveries; repeat constructor; simpl; lia).
  assert (Hu : Forall (fun op : @ledger_op Z => is_update op = false)
                 deliveries)
    by (unfold deliveries; repeat constructor).
  do 4 (split; [assumption|]).
  rewrite (stock_on_hand_plus_sold_balances
             Z.mul deliveries (store [] []) Hk Hn Hp Hu).
  reflexivity.
Defined.

Lemma two_sales_consume_as_one_witness :
  stock_wf two_lots
  /\ get_tree_type_by_id 1 two_lots = Some oak
  /\ 0 <= 4
  /\ 0 <= 8
  /\ 4 + 8 <= total_available 1 two_lots
  /\ stock (snd (record_sale Z.mul (midnight 4) 1 8
                   (snd (record_sale Z.mul (midnight 3) 1 4 two_lots))))
     = stock (snd (record_sale Z.mul (midnight 5) 1 (4 + 8) two_lots)).
Proof.
  assert (Hk : stock_wf two_lots) by prove_wf.
  assert (Htt : get_tree_type_by_id 1 two_lots = Some oak) by reflexivity.
  assert (H1 : 0 <= 4) by lia.
  assert (H2 : 0 <= 8) by lia.
  assert (Hq : 4 + 8 <= total_available 1 two_lots) by prove_le.
  do 5 (split; [assumption|]).
  apply (two_sales_consume_as_one
           Z.mul (midnight 3) (midnight 4) (midnight 5) 1 4 8 two_lots oak
           Hk Htt H1 H2 Hq).
Defined.

Lemma create_tree_type_then_read_witness :
  ~ In "Pine"%string (map tt_name (tree_types one_lot))
  /\ exists row db',
       create_tree_type "Pine" 300 None one_lot = (Committed row, db')
       /\ tt_id row = 2
       /\ get_tree_type_by_id 2 db' = Some row
       /\ get_tree_type_by_id 1 db' = Some oak.
Proof.
  assert (Hfree : ~ In "Pine"%string (map tt_name (tree_types one_lot)))
    by (simpl; intros [H|[]]; discriminate H).
  destruct (create_tree_type_then_read "Pine" 300 None one_lot Hfree)
    as (row & db' & Heq & _).
  split; [exact Hfree|]. exists row, db'. split; [exact Heq|].
  vm_compute in Heq. injection Heq as <- <-. repeat split.
Defined.

Lemma create_tree_type_keeps_catalogue_unique_witness :
  NoDup (map tt_name (tree_types one_lot))
  /\ NoDup (map tt_id (tree_types one_lot))
  /\ fst (create_tree_type "Oak" 300 None one_lot) = IntegrityError
  /\ NoDup (map tt_name
              (tree_types (snd (create_tree_type "Pine" 300 None one_lot)))).
Proof.
  assert (Hn : NoDup (map tt_name (tree_types one_lot)))
    by (simpl; repeat constructor; simpl; tauto).
  assert (Hi : NoDup (map tt_id (tree_types one_lot)))
    by (simpl; repeat constructor; simpl; tauto).
  do 2 (split; [assumption|]).
  split; [reflexivity|].
  apply (create_tree_type_keeps_catalogue_unique
           "Pine" 300 None one_lot Hn Hi).
Defined.

Lemma create_location_then_read_witness :
  ~ In "Greenhouse"%string (map loc_name (locations one_lot))
  /\ exists row db',
       create_location "Greenhouse" None one_lot = (Committed row, db')
       /\ loc_id row = 1
       /\ get_location_by_id 1 db' = Some row.
Proof.
  assert (Hfree : ~ In "Greenhouse"%string
                     (map loc_name (locations one_lot)))
    by (simpl; tauto).
  destruct (create_location_then_read "Greenhouse" None one_lot Hfree)
    as (row & db' & Heq & _).
  split; [exact Hfree|]. exists row, db'. split; [exact Heq|].
  vm_compute in Heq. injection Heq as <- <-. repeat split.
Defined.


Lemma get_all_transactions_raises_on_last_day_only_witness :
  valid_date date_max
  /\ fst (get_all_transactions None (Some date_max) history) = OverflowError.
Proof.
  assert (Hv : valid_date date_max)
    by (unfold valid_date, date_min, date_max; lia).
  split; [exact Hv|].
  now apply (get_all_transactions_raises_on_last_day_only
               None date_max history Hv).
Defined.

Lemma get_all_transactions_inverted_window_is_empty_witness :
  valid_date 10
  /\ 10 < date_max
  /\ 10 < 12
  /\ get_all_transactions (Some 12) (Some 10) history = (Returned [], history).
Proof.
  assert (Hv : valid_date 10)
    by (unfold valid_date, date_min, date_max; lia).
  assert (Hlt : 10 < date_max) by (unfold date_max; lia).
  assert (Hinv : 10 < 12) by lia.
  do 3 (split; [assumption|]).
  exact (get_all_transactions_inverted_window_is_empty
           12 10 history Hv Hlt Hinv).
Defined.

Lemma print_table_row_too_long_raises_witness :
  (exists row, In row [["1"; "Oak"; "$2.50"; "extra"]]%string
               /\ (List.length table_headers < List.length row)%nat)
  /\ print_table table_headers [["1"; "Oak"; "$2.50"; "extra"]]%string
     = IndexError [].
Proof.
  assert (H : exists row, In row [["1"; "Oak"; "$2.50"; "extra"]]%string
                          /\ (List.length table_headers
                              < List.length row)%nat).
  { eexists. split; [left; reflexivity | simpl; lia]. }
  split; [exact H|].
  exact (print_table_row_too_long_raises table_headers _ H).
Defined.

Lemma print_table_lines_up_witness :
  table_rows <> []
  /\ (forall row, In row table_rows ->
                  (List.length row <= List.length table_headers)%nat)
  /\ exists column_widths,
       print_table table_headers table_rows
       = Printed
           (Cyan true (justified_line table_headers column_widths)
            :: Cyan false
                 (repeat_string "-"
                    (String.length
                       (justified_line table_headers column_widths)))
            :: map (fun row => Plain (justified_line row column_widths))
                   table_rows)
       /\ column_widths = [2; 12; 6]%nat
       /\ print_table table_headers table_rows
          = Printed [Cyan true "ID | Name         | Price ";
                     Cyan false "--------------------------";
                     Plain "1  | Oak          | $2.50 ";
                     Plain "12 | Silver birch | $10.00";
                     Plain "3  | Fir         "].
Proof.
  assert (Hne : table_rows <> []) by discriminate.
  assert (Hfit : forall row, In row table_rows ->
                   (List.length row <= List.length table_headers)%nat).
  { intros row [<-|[<-|[<-|[]]]]; simpl; lia. }
  destruct (print_table_lines_up table_headers table_rows Hne Hfit)
    as (ws & Heq & Hlen & Hwidths & _).
  do 2 (split; [assumption|]).
  exists ws. split; [exact Heq|].
  split; [|reflexivity].
  destruct ws as [|w0 [|w1 [|w2 [|w3 ws]]]]; try discriminate Hlen.
  assert (H0 : w0 = 2%nat).
  { destruct (Hwidths 0%nat w0 eq_refl) as (Hh & Hc & _).
    pose proof (Hh "ID"%string eq_refl) as A.
    destruct (Hwidths 0%nat w0 eq_refl)
      as (_ & _ & [(h & Hk & ->)|(row & cell & Hin & Hk & ->)]).
    - injection Hk as <-. reflexivity.
    - simpl in A. destruct Hin as [<-|[<-|[<-|[]]]];
        injection Hk as <-; simpl in *; lia. }
  assert (H1 : w1 = 12%nat).
  { destruct (Hwidths 1%nat w1 eq_refl) as (_ & Hc & _).
    pose proof (Hc ["12"; "Silver birch"; "$10.00"]%string
                   "Silver birch"%string
                   (or_intror (or_introl eq_refl)) eq_refl) as A.
    destruct (Hwidths 1%nat w1 eq_refl)
      as (_ & _ & [(h & Hk & ->)|(row & cell & Hin & Hk & ->)]).
    - injection Hk as <-. simpl in A. lia.
    - simpl in A. destruct Hin as [<-|[<-|[<-|[]]]];
        injection Hk as <-; simpl in *; lia. }
  assert (H2 : w2 = 6%nat).
  { destruct (Hwidths 2%nat w2 eq_refl) as (_ & Hc & _).
    pose proof (Hc ["12"; "Silver birch"; "$10.00"]%string
                   "$10.00"%string
                   (or_intror (or_introl eq_refl)) eq_refl) as A.
    destruct (Hwidths 2%nat w2 eq_refl)
      as (_ & _ & [(h & Hk & ->)|(row & cell & Hin & Hk & ->)]).
    - injection Hk as <-. simpl in A. lia.
    - simpl in A. destruct Hin as [<-|[<-|[<-|[]]]];
        try (injection Hk as <-; simpl in *; lia).
      discriminate Hk. }
  now subst.
Defined.

Lemma move_there_and_back_witness :
  stock_wf two_places
  /\ stock_nonneg two_places
  /\ get_stock_by_id 1 two_places = Some (lot 1 1 1 10 (midnight 1) 7)
  /\ 4 <= s_quantity (lot 1 1 1 10 (midnight 1) 7)
  /\ 2 <> s_location_id (lot 1 1 1 10 (midnight 1) 7)
  /\ find_lot_at 1 1 (stock two_places) = Some (lot 1 1 1 10 (midnight 1) 7)
  /\ stock (snd (move_stock_quantity (midnight 4) 2 1 4
                   (snd (move_stock_quantity (midnight 3) 1 2 4
                           two_places))))
     = stock two_places.
Proof.
  assert (Hk : stock_wf two_places) by prove_wf.
  assert (Hn : stock_nonneg two_places)
    by (repeat constructor; simpl; lia).
  assert (Hs : get_stock_by_id 1 two_places
               = Some (lot 1 1 1 10 (midnight 1) 7)) by reflexivity.
  assert (Hq : 4 <= s_quantity (lot 1 1 1 10 (midnight 1) 7)) by prove_le.
  assert (Hto : 2 <> s_location_id (lot 1 1 1 10 (midnight 1) 7))
    by (simpl; lia).
  assert (Hf : find_lot_at
                 (s_tree_type_id (lot 1 1 1 10 (midnight 1) 7))
                 (s_location_id (lot 1 1 1 10 (midnight 1) 7))
                 (stock two_places)
               = Some (lot 1 1 1 10 (midnight 1) 7)) by reflexivity.
  destruct (move_there_and_back (midnight 3) (midnight 4) 1 2 4 two_places
              _ Hk Hn Hs Hq Hto Hf)
    as (src1 & dst1 & db1 & src2 & dst2 & db2 & Hm1 & Hm2 & _ & _).
  do 5 (split; [assumption|]).
  split; [exact Hf|]. reflexivity.
Defined.
